(** * AlphaView gesture interpreter: [src/components/GestureController.tsx]

    A shallow embedding of the per-frame hand-landmark interpreter
    ([processFrame]) and of the capture toggle ([toggleCamera]) of the
    [GestureController] component, with the properties its specification
    states about them, followed by the code around it: the gesture sink
    [handleGesture] and the retrying fetch of [src/pages/explorer.tsx],
    [pick] and the pLDDT statistics of [src/components/ProteinViewer.tsx],
    and the step counter of [src/components/OnboardingTour.tsx].

    Modelling conventions.
    - JavaScript numbers that hold coordinates and distances are real
      numbers ([R]); [Math.hypot] is the Euclidean norm.  Rounding is not
      modelled.
    - [Date.now()] readings are integers ([Z], milliseconds).
    - [results.landmarks] is a list of hands, a hand a list of points; an
      index past the end of a list is JavaScript's [undefined], and reading
      [.x] of it throws a [TypeError].
    - [useRef] cells are the record [Refs], [useState] cells the remaining
      fields of [Component]; [onGesture] calls are collected, in order, in a
      list of [GestureEvent]. *)

From Stdlib Require Import Reals Lra Lia ZArith List Bool.
Import ListNotations.

Open Scope R_scope.

(** ** Numbers *)

Definition Rltb (a b : R) : bool := if Rlt_dec a b then true else false.
Definition Rgtb (a b : R) : bool := Rltb b a.

(** [Math.hypot(x, y)] *)
Definition hypot (x y : R) : R := sqrt (x * x + y * y).

(** ** Data model *)

(** [{ x: number, y: number }] *)
Record Point := mkPoint { px : R; py : R }.

(** One detected hand: [NormalizedLandmark[]]. *)
Definition Hand := list Point.

(** [results.landmarks] *)
Definition Results := list Hand.

(** [useState<'IDLE' | 'DETECTING' | 'NOT_FOUND'>] *)
Inductive Status := IDLE | DETECTING | NOT_FOUND.

(** The strings given to [setActiveGesture]. *)
Inductive Label := CLICK | RESET_VIEW | ZOOMING | PANNING | ROTATING.

(** One call of [onGesture(type, data)]. *)
Inductive GestureEvent :=
| Rotate (x y : R)
| Pan (x y : R)
| Zoom (delta : R)
| Reset
| Click (x y : R)
| NullGesture.

(** The [useRef] cells of lines 19-25 ([requestRef], the handle of the
    pending animation frame, is left to the caller of [processFrame]). *)
Record Refs := mkRefs {
  lastLandmark : option Point;
  smoothedPos : Point;
  lastPinchDist : option R;
  isTapped : bool;
  lastClickTime : Z;
  lastResetTime : Z
}.

Record Component := mkComponent {
  refs : Refs;
  handLandmarker : bool;          (* [handLandmarker !== null] *)
  cameraActive : bool;
  status : Status;
  activeGesture : option Label
}.

(** One run of the frame callback: what the landmarker detected, and the
    two readings of [Date.now()] the callback may take (line 142, inside
    the click branch, and line 149). *)
Record Frame := mkFrame {
  landmarks : Results;
  clickClock : Z;
  nowClock : Z
}.

Definition initRefs : Refs :=
  {| lastLandmark := None;
     smoothedPos := mkPoint 0 0;
     lastPinchDist := None;
     isTapped := false;
     lastClickTime := 0%Z;
     lastResetTime := 0%Z |}.

(** The component as mounted (lines 12-25). *)
Definition initComponent : Component :=
  {| refs := initRefs;
     handLandmarker := false;
     cameraActive := false;
     status := IDLE;
     activeGesture := None |}.

(** *** Assignments to single cells *)

Definition set_lastLandmark (v : option Point) (r : Refs) : Refs :=
  mkRefs v (smoothedPos r) (lastPinchDist r) (isTapped r)
         (lastClickTime r) (lastResetTime r).
Definition set_smoothedPos (v : Point) (r : Refs) : Refs :=
  mkRefs (lastLandmark r) v (lastPinchDist r) (isTapped r)
         (lastClickTime r) (lastResetTime r).
Definition set_lastPinchDist (v : option R) (r : Refs) : Refs :=
  mkRefs (lastLandmark r) (smoothedPos r) v (isTapped r)
         (lastClickTime r) (lastResetTime r).
Definition set_isTapped (v : bool) (r : Refs) : Refs :=
  mkRefs (lastLandmark r) (smoothedPos r) (lastPinchDist r) v
         (lastClickTime r) (lastResetTime r).
Definition set_lastClickTime (v : Z) (r : Refs) : Refs :=
  mkRefs (lastLandmark r) (smoothedPos r) (lastPinchDist r) (isTapped r)
         v (lastResetTime r).
Definition set_lastResetTime (v : Z) (r : Refs) : Refs :=
  mkRefs (lastLandmark r) (smoothedPos r) (lastPinchDist r) (isTapped r)
         (lastClickTime r) v.

Definition withRefs (f : Refs -> Refs) (c : Component) : Component :=
  mkComponent (f (refs c)) (handLandmarker c) (cameraActive c) (status c)
              (activeGesture c).
Definition setHandLandmarker (v : bool) (c : Component) : Component :=
  mkComponent (refs c) v (cameraActive c) (status c) (activeGesture c).
Definition setCameraActive (v : bool) (c : Component) : Component :=
  mkComponent (refs c) (handLandmarker c) v (status c) (activeGesture c).
Definition setStatus (v : Status) (c : Component) : Component :=
  mkComponent (refs c) (handLandmarker c) (cameraActive c) v
              (activeGesture c).
Definition setActiveGesture (v : option Label) (c : Component) : Component :=
  mkComponent (refs c) (handLandmarker c) (cameraActive c) (status c) v.

(** ** Hyperparameters (lines 28-32) *)

Definition ALPHA : R := 0.4.
Definition GAIN : R := 15.
Definition DEADZONE : R := 0.003.
Definition CLICK_THRESHOLD : R := 0.07.
Definition CLICK_RELEASE : R := 0.10.

(** ** The frame callback *)

(** What a frame step leaves behind: it returns ([Done]) or a property
    read on [undefined] throws ([TypeError]); either way the cells keep
    the writes made so far and the events already sent stay sent. *)
Inductive Outcome :=
| Done (c : Component) (evs : list GestureEvent)
| TypeError (c : Component) (evs : list GestureEvent).

Definition bind {A B : Type} (o : option A) (k : A -> option B) : option B :=
  match o with
  | Some a => k a
  | None => None
  end.

Notation "x <- e ;; k" := (bind e (fun x => k))
  (at level 61, e at next level, right associativity).

(** [isExtended(tipIdx, dipIdx)] (lines 103-113), over the first hand.
    [landmarks[i]] is [nth_error landmarks i]; [None] is the [TypeError]
    of [tip.x], [wrist.x] or [dip.x] on a missing landmark.  The unused
    [mcp] is only looked up, never read. *)
Definition isExtended (hand : Hand) (tipIdx dipIdx : nat) : option bool :=
  tip <- nth_error hand tipIdx ;;
  wrist <- nth_error hand 0 ;;
  dip <- nth_error hand dipIdx ;;
  let dTip := hypot (px tip - px wrist) (py tip - py wrist) in
  let dDip := hypot (px dip - px wrist) (py dip - py wrist) in
  Some (Rgtb dTip (dDip * 1.1)).

(** The values lines 94-121 compute from the first hand. *)
Record Reading := mkReading {
  indexTip : Point;
  indexOut : bool;
  middleOut : bool;
  ringOut : bool;
  pinkyOut : bool;
  tapDist : R
}.

Definition isPalm (rd : Reading) : bool :=
  indexOut rd && middleOut rd && ringOut rd && pinkyOut rd.

Definition readHand (hand : Hand) : option Reading :=
  iOut <- isExtended hand 8 7 ;;
  mOut <- isExtended hand 12 11 ;;
  rOut <- isExtended hand 16 15 ;;
  pOut <- isExtended hand 20 19 ;;
  iTip <- nth_error hand 8 ;;
  thumbTip <- nth_error hand 4 ;;
  Some (mkReading iTip iOut mOut rOut pOut
          (hypot (px iTip - px thumbTip) (py iTip - py thumbTip))).

(** Lines 129-130. *)
Definition deadzone (d : R) : R :=
  if Rltb (Rabs d) DEADZONE then 0 else d.

(** Lines 133-134, one axis. *)
Definition smooth (d prev : R) : R := ALPHA * d + (1 - ALPHA) * prev.

(** Click logic, lines 137-146; [t] is the reading of [Date.now()] at
    line 142. *)
Definition clickLogic (c : Component) (rd : Reading) (t : Z)
  : Component * list GestureEvent :=
  if Rltb (tapDist rd) CLICK_THRESHOLD then
    let c1 := setActiveGesture (Some CLICK) c in
    if negb (isTapped (refs c1)) then
      (withRefs (fun r => set_lastClickTime t (set_isTapped true r)) c1,
       [Click (px (indexTip rd)) (py (indexTip rd))])
    else (c1, [])
  else if Rgtb (tapDist rd) CLICK_RELEASE then
    (withRefs (set_isTapped false) c, [])
  else (c, []).

Definition clickLocked (c : Component) (now : Z) : bool :=
  (now - lastClickTime (refs c) <? 400)%Z.

(** The two-hand branch, lines 161-173. *)
Definition pinchZoom (c : Component) (results : Results) (rd : Reading)
  : Outcome :=
  let c1 := setActiveGesture (Some ZOOMING) c in
  let h1 := indexTip rd in
  match nth_error (nth 1 results []) 8 with
  | None => TypeError c1 []
  | Some h2 =>
      let dist := hypot (px h1 - px h2) (py h1 - py h2) in
      let evs :=
        match lastPinchDist (refs c1) with
        | Some last =>
            let delta := (dist - last) * 20 in
            if Rgtb (Rabs delta) 0.005 then [Zoom delta] else []
        | None => []
        end in
      Done (withRefs (set_lastPinchDist (Some dist)) c1) evs
  end.

(** The decision tree, lines 149-186; [now] is the reading of
    [Date.now()] at line 149. *)
Definition decisionTree (c : Component) (results : Results) (rd : Reading)
    (now : Z) : Outcome :=
  if isPalm rd then
    if (now - lastResetTime (refs c) >? 2000)%Z then
      Done (withRefs (set_lastResetTime now)
              (setActiveGesture (Some RESET_VIEW) c)) [Reset]
    else Done c []
  else if clickLocked c now then Done c []
  else if (length results =? 2)%nat then pinchZoom c results rd
  else if middleOut rd && indexOut rd && negb (ringOut rd) then
    Done (setActiveGesture (Some PANNING) c)
         [Pan (- px (smoothedPos (refs c)) * GAIN * 1.5)
              (py (smoothedPos (refs c)) * GAIN * 1.5)]
  else if indexOut rd && negb (middleOut rd) then
    Done (setActiveGesture (Some ROTATING) c)
         [Rotate (- px (smoothedPos (refs c)) * GAIN)
                 (py (smoothedPos (refs c)) * GAIN)]
  else Done c [].

(** Lines 125-134: deadzone and exponential smoothing of the index-tip
    displacement since [last]. *)
Definition smoothing (last tip : Point) (r : Refs) : Refs :=
  let dx := deadzone (px tip - px last) in
  let dy := deadzone (py tip - py last) in
  set_smoothedPos
    (mkPoint (smooth dx (px (smoothedPos r))) (smooth dy (py (smoothedPos r))))
    r.

(** [processFrame] from line 91 on: the body run once the video has a
    frame and the landmarker has returned [results] (drawing on the
    canvas left out). *)
Definition processFrame (c : Component) (f : Frame) : Outcome :=
  match landmarks f with
  | [] =>
      Done (withRefs (fun r => set_lastPinchDist None (set_lastLandmark None r))
              (setActiveGesture None (setStatus NOT_FOUND c))) []
  | hand :: _ =>
      let c0 := setStatus DETECTING c in
      match readHand hand with
      | None => TypeError c0 []
      | Some rd =>
          match lastLandmark (refs c0) with
          | Some last =>
              let c1 := withRefs (smoothing last (indexTip rd)) c0 in
              let (c2, ev1) := clickLogic c1 rd (clickClock f) in
              match decisionTree c2 (landmarks f) rd (nowClock f) with
              | Done c3 ev2 =>
                  Done (withRefs (set_lastLandmark (Some (indexTip rd))) c3)
                       (ev1 ++ ev2)
              | TypeError c3 ev2 => TypeError c3 (ev1 ++ ev2)
              end
          | None =>
              Done (withRefs
                      (fun r => set_lastLandmark (Some (indexTip rd))
                                  (set_lastPinchDist None r)) c0) []
          end
      end
  end.

(** The animation-frame loop over a list of frames: a frame that throws
    never reaches [requestAnimationFrame] (line 217), so the loop ends
    there.  Each event is logged with the [now] clock of its frame. *)
Definition stamp (f : Frame) (evs : list GestureEvent)
  : list (Z * GestureEvent) :=
  map (fun e => (nowClock f, e)) evs.

Inductive RunOutcome :=
| Ran (c : Component) (log : list (Z * GestureEvent))
| Crashed (c : Component) (log : list (Z * GestureEvent)).

Fixpoint run (c : Component) (fs : list Frame) : RunOutcome :=
  match fs with
  | [] => Ran c []
  | f :: fs' =>
      match processFrame c f with
      | Done c1 evs =>
          match run c1 fs' with
          | Ran c2 log => Ran c2 (stamp f evs ++ log)
          | Crashed c2 log => Crashed c2 (stamp f evs ++ log)
          end
      | TypeError c1 evs => Crashed c1 (stamp f evs)
      end
  end.

(** ** The capture toggle *)

(** The result of [navigator.mediaDevices.getUserMedia]. *)
Inductive MediaResult := StreamGranted | StreamDenied.

(** [toggleCamera] (lines 220-249), with the video element mounted, run
    in the render of the current state.  The start path is taken to its
    end: [setCameraActive(true)] runs in the [onloadedmetadata] callback
    that follows a granted stream. *)
Definition toggleCamera (c : Component) (media : MediaResult)
  : Component * list GestureEvent :=
  if negb (handLandmarker c) then (c, [])
  else if cameraActive c then
    (setStatus IDLE (setCameraActive false c), [NullGesture])
  else
    match media with
    | StreamGranted => (setCameraActive true c, [])
    | StreamDenied => (c, [])
    end.

(** ** Vocabulary of the properties *)

(** A frame in which every detected hand carries all 21 landmarks. *)
Definition completeFrame (f : Frame) : bool :=
  forallb (fun hand => (length hand =? 21)%nat) (landmarks f).

(** The state in which the click logic runs on a tracked frame. *)
Definition smoothed (c : Component) (last : Point) (rd : Reading) : Component :=
  withRefs (smoothing last (indexTip rd)) (setStatus DETECTING c).

Definition eventsOf (o : Outcome) : list GestureEvent :=
  match o with
  | Done _ evs => evs
  | TypeError _ evs => evs
  end.

Definition stateOf (o : Outcome) : Component :=
  match o with
  | Done c _ => c
  | TypeError c _ => c
  end.

(** The events the decision tree can send. *)
Definition treeEvent (e : GestureEvent) : bool :=
  match e with
  | Reset | Zoom _ | Pan _ _ | Rotate _ _ => true
  | Click _ _ | NullGesture => false
  end.

(** The smoothed value after [n] frames fed the same displacement [d],
    from the initial [smoothedPos] coordinate 0. *)
Fixpoint smoothN (d : R) (n : nat) : R :=
  match n with
  | O => 0
  | S k => smooth d (smoothN d k)
  end.

(** [smooth d] applied [n] times to [s]. *)
Fixpoint smoothFrom (d s : R) (n : nat) : R :=
  match n with
  | O => s
  | S k => smooth d (smoothFrom d s k)
  end.

(** The thumb-tip to index-tip distance of a frame's first hand. *)
Definition tapOf (f : Frame) : option R :=
  match landmarks f with
  | hand :: _ => option_map tapDist (readHand hand)
  | [] => None
  end.

(** A detected hand pinching below the engage threshold, not below it,
    and above the release threshold. *)
Definition engaged (f : Frame) : Prop :=
  exists d, tapOf f = Some d /\ d < CLICK_THRESHOLD.
Definition notEngaged (f : Frame) : Prop :=
  exists d, tapOf f = Some d /\ CLICK_THRESHOLD <= d.
Definition released (f : Frame) : Prop :=
  exists d, tapOf f = Some d /\ CLICK_RELEASE < d.

Definition isClick (e : GestureEvent) : bool :=
  match e with
  | Click _ _ => true
  | _ => false
  end.

Definition isReset (e : GestureEvent) : bool :=
  match e with
  | Reset => true
  | _ => false
  end.

(** Number of [Click] events among the events of one frame. *)
Definition clickCount (evs : list GestureEvent) : nat :=
  length (filter isClick evs).

(** Number of [Click] events of a log. *)
Definition clicks (log : list (Z * GestureEvent)) : nat :=
  length (filter (fun te => isClick (snd te)) log).

(** Clock readings of the frames that sent [Reset], in order. *)
Definition resetTimes (log : list (Z * GestureEvent)) : list Z :=
  map fst (filter (fun te => isReset (snd te)) log).

(** The clock readings of [ts] inside the window [[w, w + 2000]]. *)
Definition inWindow (w : Z) (ts : list Z) : list Z :=
  filter (fun t => (w <=? t)%Z && (t <=? w + 2000)%Z) ts.

(** Each reading is more than 2000 ms after the one before it, the first
    more than 2000 ms after [last]. *)
Fixpoint spaced (last : Z) (ts : list Z) : Prop :=
  match ts with
  | [] => True
  | t :: ts' => (t - last > 2000)%Z /\ spaced t ts'
  end.

Definition logOf (o : RunOutcome) : list (Z * GestureEvent) :=
  match o with
  | Ran _ log => log
  | Crashed _ log => log
  end.

(** The conditions under which the decision tree of a tracked frame takes
    the two-hand branch (lines 152-160): no open palm, no click lock
    after the click logic has run, exactly two hands. *)
Definition reachesPinchZoom (c : Component) (f : Frame) (last : Point)
    (rd : Reading) : bool :=
  negb (isPalm rd)
  && negb (clickLocked
             (fst (clickLogic (smoothed c last rd) rd (clickClock f)))
             (nowClock f))
  && (length (landmarks f) =? 2)%nat.

(** Frames of a readable hand whose index tip moves by [d] from one
    frame to the next, starting after position [p]. *)
Fixpoint advancing (p d : Point) (fs : list Frame) : Prop :=
  match fs with
  | [] => True
  | f :: fs' =>
      exists hand rest rd,
        landmarks f = hand :: rest /\ readHand hand = Some rd
        /\ px (indexTip rd) - px p = px d
        /\ py (indexTip rd) - py p = py d
        /\ advancing (indexTip rd) d fs'
  end.

(** ** Sample frames *)

(** A hand seen from the palm side, wrist at the bottom; the five tips are
    left open. *)
Definition sampleHand (thumbTip iTip mTip rTip pTip : Point) : Hand :=
  [ mkPoint 0.50 0.90;
    mkPoint 0.42 0.80; mkPoint 0.36 0.72; mkPoint 0.32 0.66; thumbTip;
    mkPoint 0.40 0.60; mkPoint 0.40 0.52; mkPoint 0.40 0.45; iTip;
    mkPoint 0.50 0.58; mkPoint 0.50 0.48; mkPoint 0.50 0.40; mTip;
    mkPoint 0.60 0.60; mkPoint 0.60 0.52; mkPoint 0.60 0.45; rTip;
    mkPoint 0.70 0.66; mkPoint 0.70 0.60; mkPoint 0.70 0.55; pTip ].

(** Four fingers stretched. *)
Definition openPalm (thumbTip iTip : Point) : Hand :=
  sampleHand thumbTip iTip (mkPoint 0.50 0.30) (mkPoint 0.60 0.35)
             (mkPoint 0.70 0.45).

(** Index stretched, the other three curled. *)
Definition pointing (thumbTip iTip : Point) : Hand :=
  sampleHand thumbTip iTip (mkPoint 0.50 0.50) (mkPoint 0.60 0.55)
             (mkPoint 0.70 0.65).

Definition tipA : Point := mkPoint 0.40 0.35.
Definition tipB : Point := mkPoint 0.50 0.35.
Definition thumbAway : Point := mkPoint 0.30 0.60.
Definition thumbPinch : Point := mkPoint 0.40 0.40.

(** The component once the landmarker is loaded and the camera started. *)
Definition started : Component :=
  fst (toggleCamera (setHandLandmarker true initComponent) StreamGranted).

(** A reading of [Date.now()]. *)
Definition t0 : Z := 1700000000000.

Definition oneHand (hand : Hand) (t : Z) : Frame := mkFrame [hand] t t.
Definition noHand (t : Z) : Frame := mkFrame [] t t.

(** The component after a first frame with the index tip at [tipA]. *)
Definition tracking : Component :=
  mkComponent (set_lastLandmark (Some tipA) initRefs) true true DETECTING None.

(** ** Further vocabulary *)

(** [Pan] and [Rotate], the two gestures driven by the smoothed motion;
    with [Zoom], the movement gestures. *)
Definition isMove (e : GestureEvent) : bool :=
  match e with
  | Pan _ _ | Rotate _ _ => true
  | _ => false
  end.

Definition isMovement (e : GestureEvent) : bool :=
  match e with
  | Zoom _ | Pan _ _ | Rotate _ _ => true
  | _ => false
  end.

(** Normalized image coordinates. *)
Definition inUnitSquare (p : Point) : Prop :=
  0 <= px p <= 1 /\ 0 <= py p <= 1.

(** The index tip of the first hand, when there is one, is normalized. *)
Definition tipInSquare (f : Frame) : Prop :=
  forall hand rest p,
    landmarks f = hand :: rest -> nth_error hand 8 = Some p -> inUnitSquare p.

Definition boundedRefs (r : Refs) : Prop :=
  Rabs (px (smoothedPos r)) <= 1 /\ Rabs (py (smoothedPos r)) <= 1
  /\ forall p, lastLandmark r = Some p -> inUnitSquare p.

Definition payloadBounded (e : GestureEvent) : Prop :=
  match e with
  | Rotate x y => Rabs x <= GAIN /\ Rabs y <= GAIN
  | Pan x y => Rabs x <= GAIN * 1.5 /\ Rabs y <= GAIN * 1.5
  | _ => True
  end.

(** Frames of a readable hand whose index tip moves, on each axis, by
    less than the deadzone from one frame to the next, starting after
    position [p]. *)
Fixpoint creeping (p : Point) (fs : list Frame) : Prop :=
  match fs with
  | [] => True
  | f :: fs' =>
      exists hand rest rd,
        landmarks f = hand :: rest /\ readHand hand = Some rd
        /\ Rabs (px (indexTip rd) - px p) < DEADZONE
        /\ Rabs (py (indexTip rd) - py p) < DEADZONE
        /\ creeping (indexTip rd) fs'
  end.

(** ** The gesture sink: [handleGesture] of [src/pages/explorer.tsx] *)

(** One call on [viewerRef.current]; the argument of [zoom] is [None]
    when it is JavaScript's [undefined]. *)
Inductive ViewerCall :=
| CallRotate (x y : R)
| CallPan (x y : R)
| CallZoom (delta : option R)
| CallReset
| CallPick (x y : R).

(** Truthiness of a number: every number but 0 (and NaN, which the reals
    do not have). *)
Definition truthy (n : R) : bool := if Req_dec_T n 0 then false else true.

(** [handleGesture(type, data)] (lines 235-242); [viewer] tells whether
    [viewerRef.current] is set.  The payload objects of [rotate], [pan]
    and [click] are truthy; the payload of [zoom] is the number [delta],
    and [data.distance] read on a number is [undefined]. *)
Definition handleGesture (viewer : bool) (e : GestureEvent)
  : list ViewerCall :=
  if negb viewer then []
  else
    match e with
    | Rotate x y => [CallRotate x y]
    | Pan x y => [CallPan x y]
    | Zoom delta => if truthy delta then [CallZoom None] else []
    | Reset => [CallReset]
    | Click x y => [CallPick x y]
    | NullGesture => []
    end.

(** The viewer calls one frame leads to. *)
Definition frameCalls (viewer : bool) (c : Component) (f : Frame)
  : list ViewerCall :=
  flat_map (handleGesture viewer) (eventsOf (processFrame c f)).

(** ** [pick] of [src/components/ProteinViewer.tsx] *)

(** What [canvas.getBoundingClientRect()] returns. *)
Record DOMRect := mkRect {
  rect_left : R;
  rect_top : R;
  rect_width : R;
  rect_height : R
}.

Inductive DomEventType :=
  pointerdown | pointerup | mousedown | mouseup | click.

(** One [canvas.dispatchEvent]. *)
Record DomEvent := mkDomEvent {
  eventType : DomEventType;
  clientX : R;
  clientY : R
}.

(** [pick(x, y)] (lines 181-222): [canvas3d] tells whether
    [plugin?.canvas3d] is set, [canvas] is the rectangle of the canvas
    element found in the container, if both exist. *)
Definition pick (canvas3d : bool) (canvas : option DOMRect) (x y : R)
  : list DomEvent :=
  if negb canvas3d then []
  else
    match canvas with
    | None => []
    | Some rect =>
        let screenX := (1 - x) * rect_width rect in
        let screenY := y * rect_height rect in
        let cx := rect_left rect + screenX in
        let cy := rect_top rect + screenY in
        [ mkDomEvent pointerdown cx cy; mkDomEvent pointerup cx cy;
          mkDomEvent mousedown cx cy; mkDomEvent mouseup cx cy;
          mkDomEvent click cx cy ]
    end.

(** ** The pLDDT statistics of [loadStructure] ([ProteinViewer.tsx]) *)

(** The counters of the loop of lines 411-423. *)
Record Tally := mkTally {
  total : R;
  high : nat;
  med : nat;
  low : nat
}.

(** One turn of the loop (lines 418-422). *)
Definition tallyStep (t : Tally) (val : R) : Tally :=
  let total' := total t + val in
  if Rgtb val 90 then mkTally total' (S (high t)) (med t) (low t)
  else if negb (Rltb val 70) then mkTally total' (high t) (S (med t)) (low t)
  else mkTally total' (high t) (med t) (S (low t)).

Definition tally (bFactors : list R) : Tally :=
  fold_left tallyStep bFactors (mkTally 0 0 0 0).

(** The object given to [onConfidenceStats] (lines 426-431). *)
Record ConfidenceStats := mkStats {
  avg : R;
  stats_high : R;
  medium : R;
  stats_low : R
}.

(** With an empty array every field is [0 / 0], that is NaN. *)
Inductive StatsReport :=
| AllNaN
| Stats (s : ConfidenceStats).

Definition confidenceStats (bFactors : list R) : StatsReport :=
  let t := tally bFactors in
  let count := length bFactors in
  if (count =? 0)%nat then AllNaN
  else
    Stats (mkStats (total t / INR count)
                   (INR (high t) / INR count * 100)
                   (INR (med t) / INR count * 100)
                   (INR (low t) / INR count * 100)).

(** The capture is not active without a landmarker. *)
Definition captureReady (c : Component) : Prop :=
  cameraActive c = true -> handLandmarker c = true.

(** A list of toggles, each with the answer of the camera; every toggle
    is finished (re-render, and [onloadedmetadata] on the start path)
    before the next one begins. *)
Fixpoint toggles (c : Component) (ms : list MediaResult)
  : Component * list GestureEvent :=
  match ms with
  | [] => (c, [])
  | m :: ms' =>
      let (c1, e1) := toggleCamera c m in
      let (c2, e2) := toggles c1 ms' in
      (c2, e1 ++ e2)
  end.

Definition endOf (o : RunOutcome) : Component :=
  match o with
  | Ran c _ => c
  | Crashed c _ => c
  end.

(** The DOM events one frame leads to, through [handleGesture] and the
    viewer's [pick]. *)
Definition frameDomEvents (canvas3d : bool) (canvas : option DOMRect)
    (c : Component) (f : Frame) : list DomEvent :=
  flat_map (fun call =>
              match call with
              | CallPick x y => pick canvas3d canvas x y
              | _ => []
              end)
           (frameCalls true c f).

Definition insideRect (rect : DOMRect) (ev : DomEvent) : Prop :=
  rect_left rect <= clientX ev <= rect_left rect + rect_width rect
  /\ rect_top rect <= clientY ev <= rect_top rect + rect_height rect.

(** ** [fetchWithRetry] of [src/pages/explorer.tsx] *)

(** What one [fetch] does: it resolves with a response of some status, or
    it rejects (network error). *)
Inductive Attempt :=
| Response (status : nat)
| Rejected.

(** How [fetchWithRetry] ends: it returns a response, rethrows the error
    of the last [fetch], or throws [MAX_RETRIES_EXCEEDED]. *)
Inductive FetchEnd :=
| Returned (status : nat)
| Rethrown
| MaxRetriesExceeded.

Record FetchRun := mkFetchRun {
  fetchEnd : FetchEnd;
  fetches : nat;       (* calls of [fetch] *)
  waited : nat         (* milliseconds spent in [setTimeout] *)
}.

(** [response.ok] *)
Definition ok (status : nat) : bool :=
  (200 <=? status)%nat && (status <=? 299)%nat.

(** Line 72: [status === 429 || status === 503 || status >= 500]. *)
Definition retried (status : nat) : bool :=
  (status =? 429)%nat || (status =? 503)%nat || (500 <=? status)%nat.

(** The loop of lines 67-83 from turn [i] on, with [fuel] turns left;
    [net i] is what the [fetch] of turn [i] does. *)
Fixpoint fetchFrom (net : nat -> Attempt) (retries backoff : nat)
    (i fuel wait : nat) : FetchRun :=
  match fuel with
  | O => mkFetchRun MaxRetriesExceeded i wait
  | S fuel' =>
      match net i with
      | Response status =>
          if ok status then mkFetchRun (Returned status) (S i) wait
          else if (status =? 404)%nat then
            mkFetchRun (Returned status) (S i) wait
          else if retried status then
            fetchFrom net retries backoff (S i) fuel'
                      (wait + backoff * (i + 1))%nat
          else mkFetchRun (Returned status) (S i) wait
      | Rejected =>
          if (i =? retries - 1)%nat then mkFetchRun Rethrown (S i) wait
          else fetchFrom net retries backoff (S i) fuel'
                         (wait + backoff * (i + 1))%nat
      end
  end.

(** [fetchWithRetry(url, options, retries = 3, backoff = 1000)]
    (lines 66-84). *)
Definition fetchWithRetry (net : nat -> Attempt) (retries backoff : nat)
  : FetchRun :=
  fetchFrom net retries backoff 0 retries 0.

(** ** The onboarding tour, [src/components/OnboardingTour.tsx] *)

(** [steps.length] (lines 10-31). *)
Definition stepsLength : Z := 4.

Record Tour := mkTour {
  currentStep : Z;
  isVisible : bool;
  tourSeen : bool      (* [localStorage] holds ['av_tour_seen'] *)
}.

Inductive TourAction := NextStep | PrevStep | Dismiss.

(** One call of [nextStep], [prevStep] or [handleDismiss] (lines 46-63).
    The guards read [currentStep] from the closure of the render the
    handler belongs to, here [rendered]; the updaters [s => s + 1] and
    [s => s - 1] act on the state itself. *)
Definition tourHandler (rendered : Z) (t : Tour) (a : TourAction) : Tour :=
  match a with
  | NextStep =>
      if (rendered <? stepsLength - 1)%Z then
        mkTour (currentStep t + 1) (isVisible t) (tourSeen t)
      else mkTour (currentStep t) false true
  | PrevStep =>
      if (0 <? rendered)%Z then
        mkTour (currentStep t - 1) (isVisible t) (tourSeen t)
      else t
  | Dismiss => mkTour (currentStep t) false true
  end.

(** Clicks with a re-render after each: every handler sees the current
    state. *)
Definition tourClicks (t : Tour) (acts : list TourAction) : Tour :=
  fold_left (fun t' a => tourHandler (currentStep t') t' a) acts t.

(** Several calls of the handlers of one and the same render. *)
Definition tourBatch (t : Tour) (acts : list TourAction) : Tour :=
  fold_left (tourHandler (currentStep t)) acts t.

(** ** Smoothed motion over successive frames *)

(** On one axis, with raw displacement [d] per frame: [s] is the
    [smoothedPos] coordinate after [n] frames and [s'] after one frame
    more.  The value moves from 0 towards [d] without passing it, and the
    gap to [d] never grows; outside the deadzone the gap shrinks by the
    factor [1 - ALPHA] with each frame, inside it the value rests at 0. *)
Definition towards (d s s' : R) (n : nat) : Prop :=
  (0 <= d -> 0 <= s /\ s <= s' /\ s' <= d)
  /\ (d <= 0 -> d <= s' /\ s' <= s /\ s <= 0)
  /\ Rabs (d - s') <= Rabs (d - s)
  /\ (DEADZONE <= Rabs d ->
      Rabs (d - s) = Rabs d * (1 - ALPHA) ^ n
      /\ Rabs (d - s') = (1 - ALPHA) * Rabs (d - s))
  /\ (Rabs d < DEADZONE -> s = 0 /\ s' = 0).

(** * Properties *)

(** ** Comparisons and distances *)

Lemma Rltb_true (a b : R) : a < b -> Rltb a b = true.
Proof. intros H. unfold Rltb. destruct (Rlt_dec a b); [reflexivity | contradiction]. Qed.

Lemma Rltb_false (a b : R) : b <= a -> Rltb a b = false.
Proof. intros H. unfold Rltb. destruct (Rlt_dec a b); [lra | reflexivity]. Qed.

Lemma Rltb_true_iff (a b : R) : Rltb a b = true <-> a < b.
Proof.
  unfold Rltb. destruct (Rlt_dec a b); split; intros; try assumption;
    try reflexivity; try discriminate; contradiction.
Qed.

Lemma hypot_eq (x y c : R) : 0 <= c -> x * x + y * y = c * c -> hypot x y = c.
Proof. intros Hc H. unfold hypot. rewrite H. apply sqrt_square, Hc. Qed.

Lemma hypot_lt (x y c : R) : 0 <= c -> x * x + y * y < c * c -> hypot x y < c.
Proof.
  intros Hc H. unfold hypot. rewrite <- (sqrt_square c Hc).
  apply sqrt_lt_1_alt. split; [nra | exact H].
Qed.

Lemma hypot_ge (x y c : R) : 0 <= c -> c * c <= x * x + y * y -> c <= hypot x y.
Proof.
  intros Hc H. unfold hypot. rewrite <- (sqrt_square c Hc).
  apply sqrt_le_1_alt, H.
Qed.

Lemma hypot_gt (x y c : R) : 0 <= c -> c * c < x * x + y * y -> c < hypot x y.
Proof.
  intros Hc H. unfold hypot. rewrite <- (sqrt_square c Hc) at 1.
  apply sqrt_lt_1_alt. split; [nra | exact H].
Qed.

Lemma hypot_le (x y c : R) : 0 <= c -> x * x + y * y <= c * c -> hypot x y <= c.
Proof.
  intros Hc H. unfold hypot. rewrite <- (sqrt_square c Hc).
  apply sqrt_le_1_alt, H.
Qed.

Lemma hypot_scale (x y k : R) : 0 <= k -> hypot x y * k = hypot (x * k) (y * k).
Proof.
  intros Hk. unfold hypot.
  replace (x * k * (x * k) + y * k * (y * k)) with ((x * x + y * y) * (k * k)) by ring.
  rewrite sqrt_mult by nra. rewrite (sqrt_square k Hk). reflexivity.
Qed.

(** The extension test on squared distances: [1.1 * 1.1 = 1.21]. *)
Lemma extended_squares (a b c d : R) :
  Rgtb (hypot a b) (hypot c d * 1.1)
  = Rltb (1.21 * (c * c + d * d)) (a * a + b * b).
Proof.
  unfold Rgtb. rewrite hypot_scale by lra.
  destruct (Rlt_dec (1.21 * (c * c + d * d)) (a * a + b * b)) as [H | H].
  - rewrite (Rltb_true _ _ H). apply Rltb_true.
    unfold hypot. apply sqrt_lt_1_alt. split; nra.
  - rewrite (Rltb_false (1.21 * (c * c + d * d))) by lra. apply Rltb_false.
    unfold hypot. apply sqrt_le_1_alt. nra.
Qed.

Lemma hypot_ltb_squares (x y c : R) :
  0 <= c -> Rltb (hypot x y) c = Rltb (x * x + y * y) (c * c).
Proof.
  intros Hc. destruct (Rlt_dec (x * x + y * y) (c * c)) as [H | H].
  - rewrite (Rltb_true _ _ H). apply Rltb_true, hypot_lt; assumption.
  - rewrite (Rltb_false (x * x + y * y)) by lra.
    apply Rltb_false, hypot_ge; [assumption | lra].
Qed.

Lemma hypot_gtb_squares (x y c : R) :
  0 <= c -> Rgtb (hypot x y) c = Rltb (c * c) (x * x + y * y).
Proof.
  intros Hc. unfold Rgtb.
  destruct (Rlt_dec (c * c) (x * x + y * y)) as [H | H].
  - rewrite (Rltb_true _ _ H). apply Rltb_true, hypot_gt; assumption.
  - rewrite (Rltb_false (c * c)) by lra.
    apply Rltb_false, hypot_le; [assumption | lra].
Qed.

(** ** Reading the first hand *)

Lemma lookup_lt {A : Type} (l : list A) (i : nat) :
  (i < length l)%nat -> exists a, nth_error l i = Some a.
Proof.
  intros H. destruct (nth_error l i) as [a |] eqn:E.
  - exists a. reflexivity.
  - apply nth_error_None in E. lia.
Qed.

Lemma isExtended_complete (hand : Hand) (tipIdx dipIdx : nat) :
  length hand = 21%nat -> (tipIdx < 21)%nat -> (dipIdx < 21)%nat ->
  exists b, isExtended hand tipIdx dipIdx = Some b.
Proof.
  intros Hlen Ht Hd. unfold isExtended.
  destruct (lookup_lt hand tipIdx) as [tip ->]; [lia |].
  destruct (lookup_lt hand 0) as [wrist ->]; [lia |].
  destruct (lookup_lt hand dipIdx) as [dip ->]; [lia |].
  cbn [bind]. eexists. reflexivity.
Qed.

Lemma isExtended_missing (hand : Hand) (tipIdx dipIdx : nat) :
  nth_error hand 0 = None \/ nth_error hand dipIdx = None
  \/ nth_error hand tipIdx = None ->
  isExtended hand tipIdx dipIdx = None.
Proof.
  intros H. unfold isExtended.
  destruct (nth_error hand tipIdx) as [tip |]; cbn [bind]; [| reflexivity].
  destruct (nth_error hand 0) as [wrist |]; cbn [bind]; [| reflexivity].
  destruct (nth_error hand dipIdx) as [dip |]; cbn [bind]; [| reflexivity].
  destruct H as [H | [H | H]]; discriminate.
Qed.

Lemma readHand_complete (hand : Hand) :
  length hand = 21%nat ->
  exists rd, readHand hand = Some rd
             /\ nth_error hand 8 = Some (indexTip rd).
Proof.
  intros Hlen. unfold readHand.
  destruct (isExtended_complete hand 8 7) as [b1 ->]; [lia .. |].
  destruct (isExtended_complete hand 12 11) as [b2 ->]; [lia .. |].
  destruct (isExtended_complete hand 16 15) as [b3 ->]; [lia .. |].
  destruct (isExtended_complete hand 20 19) as [b4 ->]; [lia .. |].
  destruct (lookup_lt hand 8) as [tip ->]; [lia |].
  destruct (lookup_lt hand 4) as [thumb ->]; [lia |].
  cbn [bind]. eexists. split; reflexivity.
Qed.

Lemma readHand_missing (hand : Hand) (tipIdx dipIdx : nat) :
  In (tipIdx, dipIdx) [(8, 7); (12, 11); (16, 15); (20, 19)]%nat ->
  isExtended hand tipIdx dipIdx = None ->
  readHand hand = None.
Proof.
  intros Hin Hnone. unfold readHand. cbn [In] in Hin.
  destruct Hin as [E | [E | [E | [E | []]]]]; inversion E; subst;
    repeat match goal with
           | |- context [isExtended hand ?t ?d] =>
               destruct (isExtended hand t d); cbn [bind];
               try reflexivity; try discriminate
           end.
Qed.

(** ** The frame step, case by case *)

Lemma processFrame_lost (c : Component) (f : Frame) :
  landmarks f = [] ->
  processFrame c f
  = Done (withRefs (fun r => set_lastPinchDist None (set_lastLandmark None r))
            (setActiveGesture None (setStatus NOT_FOUND c))) [].
Proof. intros H. unfold processFrame. rewrite H. reflexivity. Qed.

Lemma processFrame_unreadable (c : Component) (f : Frame) hand rest :
  landmarks f = hand :: rest -> readHand hand = None ->
  processFrame c f = TypeError (setStatus DETECTING c) [].
Proof. intros H E. unfold processFrame. rewrite H, E. reflexivity. Qed.

Lemma processFrame_first (c : Component) (f : Frame) hand rest rd :
  landmarks f = hand :: rest -> readHand hand = Some rd ->
  lastLandmark (refs c) = None ->
  processFrame c f
  = Done (withRefs (fun r => set_lastLandmark (Some (indexTip rd))
                               (set_lastPinchDist None r))
            (setStatus DETECTING c)) [].
Proof.
  intros H E L. unfold processFrame. rewrite H, E.
  cbn [setStatus refs]. rewrite L. reflexivity.
Qed.

Lemma processFrame_tracked (c : Component) (f : Frame) hand rest rd last :
  landmarks f = hand :: rest -> readHand hand = Some rd ->
  lastLandmark (refs c) = Some last ->
  processFrame c f
  = match decisionTree (fst (clickLogic (smoothed c last rd) rd (clickClock f)))
            (landmarks f) rd (nowClock f) with
    | Done c3 ev2 =>
        Done (withRefs (set_lastLandmark (Some (indexTip rd))) c3)
             (snd (clickLogic (smoothed c last rd) rd (clickClock f)) ++ ev2)
    | TypeError c3 ev2 =>
        TypeError c3
          (snd (clickLogic (smoothed c last rd) rd (clickClock f)) ++ ev2)
    end.
Proof.
  intros H E L. unfold processFrame. rewrite H, E.
  cbn [setStatus refs]. rewrite L. fold (setStatus DETECTING c).
  fold (smoothed c last rd).
  destruct (clickLogic (smoothed c last rd) rd (clickClock f)) as [c2 ev1].
  rewrite <- H. reflexivity.
Qed.

(** ** Events of one frame *)

Lemma clickLogic_events (c : Component) (rd : Reading) (t : Z) :
  (snd (clickLogic c rd t) = []
   /\ lastClickTime (refs (fst (clickLogic c rd t))) = lastClickTime (refs c))
  \/ (snd (clickLogic c rd t) = [Click (px (indexTip rd)) (py (indexTip rd))]
      /\ lastClickTime (refs (fst (clickLogic c rd t))) = t).
Proof.
  unfold clickLogic.
  destruct (Rltb (tapDist rd) CLICK_THRESHOLD).
  - cbn [setActiveGesture refs]. destruct (isTapped (refs c)); cbn; auto.
  - destruct (Rgtb (tapDist rd) CLICK_RELEASE); cbn; auto.
Qed.

Lemma clickLogic_lastResetTime (c : Component) (rd : Reading) (t : Z) :
  lastResetTime (refs (fst (clickLogic c rd t))) = lastResetTime (refs c).
Proof.
  unfold clickLogic.
  destruct (Rltb (tapDist rd) CLICK_THRESHOLD).
  - cbn [setActiveGesture refs]. destruct (isTapped (refs c)); reflexivity.
  - destruct (Rgtb (tapDist rd) CLICK_RELEASE); reflexivity.
Qed.

Lemma pinchZoom_events (c : Component) (results : Results) (rd : Reading) :
  eventsOf (pinchZoom c results rd) = []
  \/ exists delta, eventsOf (pinchZoom c results rd) = [Zoom delta].
Proof.
  unfold pinchZoom.
  destruct (nth_error (nth 1 results []) 8) as [h2 |]; cbn [eventsOf]; auto.
  cbn [setActiveGesture refs].
  destruct (lastPinchDist (refs c)) as [last |]; auto.
  match goal with |- context [Rgtb ?a ?b] => destruct (Rgtb a b) end; eauto.
Qed.

Lemma decisionTree_events (c : Component) (results : Results) (rd : Reading)
    (now : Z) :
  eventsOf (decisionTree c results rd now) = []
  \/ exists e, eventsOf (decisionTree c results rd now) = [e]
               /\ treeEvent e = true.
Proof.
  unfold decisionTree.
  destruct (isPalm rd).
  { destruct (now - lastResetTime (refs c) >? 2000)%Z; cbn [eventsOf]; eauto. }
  destruct (clickLocked c now); cbn [eventsOf]; auto.
  destruct (length results =? 2)%nat.
  { destruct (pinchZoom_events c results rd) as [E | [delta E]]; eauto. }
  destruct (middleOut rd && indexOut rd && negb (ringOut rd));
    cbn [eventsOf]; eauto.
  destruct (indexOut rd && negb (middleOut rd)); cbn [eventsOf]; eauto.
Qed.

Lemma decisionTree_locked (c : Component) (results : Results) (rd : Reading)
    (now : Z) :
  clickLocked c now = true ->
  eventsOf (decisionTree c results rd now) = []
  \/ eventsOf (decisionTree c results rd now) = [Reset].
Proof.
  intros Hl. unfold decisionTree. rewrite Hl.
  destruct (isPalm rd); cbn [eventsOf]; auto.
  destruct (now - lastResetTime (refs c) >? 2000)%Z; cbn [eventsOf]; auto.
Qed.

Lemma processFrame_events (c : Component) (f : Frame) hand rest rd last :
  landmarks f = hand :: rest -> readHand hand = Some rd ->
  lastLandmark (refs c) = Some last ->
  eventsOf (processFrame c f)
  = snd (clickLogic (smoothed c last rd) rd (clickClock f))
    ++ eventsOf (decisionTree
                   (fst (clickLogic (smoothed c last rd) rd (clickClock f)))
                   (landmarks f) rd (nowClock f)).
Proof.
  intros H E L. rewrite (processFrame_tracked c f hand rest rd last H E L).
  destruct (decisionTree _ _ _ _); reflexivity.
Qed.

(** Every frame is in one of the four cases of the step. *)
Lemma processFrame_cases (c : Component) (f : Frame) :
  landmarks f = []
  \/ (exists hand rest, landmarks f = hand :: rest /\ readHand hand = None)
  \/ (exists hand rest rd, landmarks f = hand :: rest
        /\ readHand hand = Some rd /\ lastLandmark (refs c) = None)
  \/ (exists hand rest rd last, landmarks f = hand :: rest
        /\ readHand hand = Some rd /\ lastLandmark (refs c) = Some last).
Proof.
  destruct (landmarks f) as [| hand rest]; [auto |].
  right. destruct (readHand hand) as [rd |] eqn:E; [| eauto].
  right. destruct (lastLandmark (refs c)) as [last |] eqn:L.
  - right. exists hand, rest, rd, last. auto.
  - left. exists hand, rest, rd. auto.
Qed.

(** ** C2: missing landmarks *)

Lemma processFrame_complete (c : Component) (f : Frame) :
  completeFrame f = true ->
  exists c' evs, processFrame c f = Done c' evs.
Proof.
  intros Hc. unfold completeFrame in Hc.
  destruct (landmarks f) as [| hand rest] eqn:Hl.
  { rewrite (processFrame_lost c f Hl). eauto. }
  cbn [forallb] in Hc. apply andb_prop in Hc as [Hh Hrest].
  apply Nat.eqb_eq in Hh.
  destruct (readHand_complete hand Hh) as (rd & Hrd & _).
  destruct (lastLandmark (refs c)) as [last |] eqn:L.
  2: { rewrite (processFrame_first c f hand rest rd Hl Hrd L). eauto. }
  rewrite (processFrame_tracked c f hand rest rd last Hl Hrd L).
  set (c2 := fst (clickLogic _ _ _)). set (ev1 := snd (clickLogic _ _ _)).
  unfold decisionTree.
  destruct (isPalm rd).
  { destruct (nowClock f - lastResetTime (refs c2) >? 2000)%Z; eauto. }
  destruct (clickLocked c2 (nowClock f)); [eauto |].
  destruct (length (landmarks f) =? 2)%nat eqn:Hn.
  2: { destruct (middleOut rd && indexOut rd && negb (ringOut rd)); [eauto |].
       destruct (indexOut rd && negb (middleOut rd)); eauto. }
  apply Nat.eqb_eq in Hn. rewrite Hl in Hn |- *.
  destruct rest as [| hand2 rest2]; [discriminate |].
  cbn [forallb] in Hrest. apply andb_prop in Hrest as [Hh2 _].
  apply Nat.eqb_eq in Hh2.
  unfold pinchZoom. cbn [nth].
  destruct (lookup_lt hand2 8) as [h2 ->]; [lia |]. eauto.
Qed.

(** C2 (as the code has it): a frame in which every detected hand carries
    its 21 landmarks never makes the frame step throw; but when the wrist,
    the distal joint or the tip of one of the four fingers is absent from
    the first hand, [isExtended] yields no classification at all: reading
    the absent landmark throws, and the frame step ends in a [TypeError]
    with no event sent. *)
Theorem processFrame_throws_exactly_on_missing_landmark :
  forall (c : Component) (f : Frame),
    (completeFrame f = true -> exists c' evs, processFrame c f = Done c' evs)
    /\ (forall hand rest tipIdx dipIdx,
          landmarks f = hand :: rest ->
          In (tipIdx, dipIdx) [(8, 7); (12, 11); (16, 15); (20, 19)]%nat ->
          nth_error hand 0 = None \/ nth_error hand dipIdx = None
          \/ nth_error hand tipIdx = None ->
          isExtended hand tipIdx dipIdx = None
          /\ processFrame c f = TypeError (setStatus DETECTING c) []).
Proof.
  intros c f. split.
  - apply processFrame_complete.
  - intros hand rest tipIdx dipIdx Hl Hin Hmiss.
    pose proof (isExtended_missing hand tipIdx dipIdx Hmiss) as E.
    split; [exact E |].
    apply (processFrame_unreadable c f hand rest Hl).
    exact (readHand_missing hand tipIdx dipIdx Hin E).
Qed.

(** ** C1: events per frame *)

(** C1 (as the code has it): when the two clock readings of a frame are
    less than 400 ms apart, a frame step sends no event, one event, or
    exactly the two events [Click] then [Reset]: the click latch runs
    before the decision tree and independently of it, so a pinch made
    with the four fingers extended fires both. *)
Theorem processFrame_one_event_or_click_then_reset :
  forall (c : Component) (f : Frame),
    (nowClock f - clickClock f < 400)%Z ->
    eventsOf (processFrame c f) = []
    \/ (exists x y, eventsOf (processFrame c f) = [Click x y])
    \/ (exists e, eventsOf (processFrame c f) = [e] /\ treeEvent e = true)
    \/ (exists x y, eventsOf (processFrame c f) = [Click x y; Reset]).
Proof.
  intros c f Hclock.
  destruct (processFrame_cases c f)
    as [Hl | [(hand & rest & Hl & E) | [(hand & rest & rd & Hl & E & L)
                                       | (hand & rest & rd & last & Hl & E & L)]]].
  - rewrite (processFrame_lost c f Hl). auto.
  - rewrite (processFrame_unreadable c f hand rest Hl E). auto.
  - rewrite (processFrame_first c f hand rest rd Hl E L). auto.
  - rewrite (processFrame_events c f hand rest rd last Hl E L).
    destruct (clickLogic_events (smoothed c last rd) rd (clickClock f))
      as [[-> _] | [-> Ht]].
    + cbn [app].
      destruct (decisionTree_events
                  (fst (clickLogic (smoothed c last rd) rd (clickClock f)))
                  (landmarks f) rd (nowClock f)) as [-> | (e & -> & He)].
      * left. reflexivity.
      * right. right. left. exists e. split; [reflexivity | exact He].
    + cbn [app].
      destruct (decisionTree_locked
                  (fst (clickLogic (smoothed c last rd) rd (clickClock f)))
                  (landmarks f) rd (nowClock f)) as [-> | ->].
      * unfold clickLocked. rewrite Ht. apply Z.ltb_lt. exact Hclock.
      * right. left. eexists. eexists. reflexivity.
      * right. right. right. eexists. eexists. reflexivity.
Qed.

(** ** C3: loss of tracking *)

(** C3 (as the code has it): a frame with no hand clears [lastLandmark]
    and [lastPinchDist], sets the status to [NOT_FOUND], clears the
    gesture label and sends no event; [smoothedPos], the click latch and
    both timestamps keep their values. *)
Theorem processFrame_no_hand_keeps_smoothedPos :
  forall (c : Component) (t1 t2 : Z),
    processFrame c (mkFrame [] t1 t2)
    = Done (mkComponent
              (mkRefs None (smoothedPos (refs c)) None (isTapped (refs c))
                      (lastClickTime (refs c)) (lastResetTime (refs c)))
              (handLandmarker c) (cameraActive c) NOT_FOUND None) [].
Proof. intros c t1 t2. reflexivity. Qed.

(** ** C4: the capture toggle *)

Lemma toggleCamera_refs (c : Component) (media : MediaResult) :
  refs (fst (toggleCamera c media)) = refs c.
Proof.
  unfold toggleCamera. destruct (handLandmarker c); cbn [negb]; [| reflexivity].
  destruct (cameraActive c); [reflexivity |]. destruct media; reflexivity.
Qed.

(** C4 (as the code has it): stopping and starting the capture leaves
    every interpreter cell as it was; none is set back to its initial
    value, so the first frame after a restart meets the values of the
    last frame before the stop. *)
Theorem toggleCamera_keeps_refs :
  forall (c : Component) (m1 m2 : MediaResult),
    refs (fst (toggleCamera c m1)) = refs c
    /\ refs (fst (toggleCamera (fst (toggleCamera c m1)) m2)) = refs c.
Proof.
  intros c m1 m2. split.
  - apply toggleCamera_refs.
  - rewrite !toggleCamera_refs. reflexivity.
Qed.

(** ** C9: the first frame after acquisition *)

(** C9: with no previous fingertip position, a frame whose first hand has
    its 21 landmarks sends no event; it records the index tip in
    [lastLandmark], clears [lastPinchDist] and sets the status to
    [DETECTING]; smoothing, click latch, timestamps and gesture label are
    left as they were, whatever the hand shows. *)
Theorem processFrame_first_frame_only_records :
  forall (c : Component) (f : Frame) (hand : Hand) (rest : Results),
    lastLandmark (refs c) = None ->
    landmarks f = hand :: rest ->
    length hand = 21%nat ->
    exists tip,
      nth_error hand 8 = Some tip
      /\ processFrame c f
         = Done (mkComponent
                   (mkRefs (Some tip) (smoothedPos (refs c)) None
                           (isTapped (refs c)) (lastClickTime (refs c))
                           (lastResetTime (refs c)))
                   (handLandmarker c) (cameraActive c) DETECTING
                   (activeGesture c)) [].
Proof.
  intros c f hand rest L Hl Hlen.
  destruct (readHand_complete hand Hlen) as (rd & Hrd & Htip).
  exists (indexTip rd). split; [exact Htip |].
  rewrite (processFrame_first c f hand rest rd Hl Hrd L). reflexivity.
Qed.

(** ** C10: what is read of the second hand *)

Lemma pinchZoom_second_hand (c : Component) (r1 r2 : Results) (rd : Reading) :
  nth_error (nth 1 r1 []) 8 = nth_error (nth 1 r2 []) 8 ->
  pinchZoom c r1 rd = pinchZoom c r2 rd.
Proof. intros H. unfold pinchZoom. rewrite H. reflexivity. Qed.

Lemma decisionTree_second_hand (c : Component) (r1 r2 : Results)
    (rd : Reading) (now : Z) :
  length r1 = length r2 ->
  nth_error (nth 1 r1 []) 8 = nth_error (nth 1 r2 []) 8 ->
  decisionTree c r1 rd now = decisionTree c r2 rd now.
Proof.
  intros Hn H. unfold decisionTree.
  rewrite Hn, (pinchZoom_second_hand c r1 r2 rd H). reflexivity.
Qed.

(** C10: two frames with the same number of hands, the same first hand
    and the same landmark 8 of the second hand (and the same clock
    readings) take the frame step to the same outcome from the same
    state: same events, same cells, and a throw in one is a throw in the
    other. *)
Theorem processFrame_reads_only_index_tip_of_second_hand :
  forall (c : Component) (f1 f2 : Frame),
    length (landmarks f1) = length (landmarks f2) ->
    nth_error (landmarks f1) 0 = nth_error (landmarks f2) 0 ->
    nth_error (nth 1 (landmarks f1) []) 8
    = nth_error (nth 1 (landmarks f2) []) 8 ->
    clickClock f1 = clickClock f2 ->
    nowClock f1 = nowClock f2 ->
    processFrame c f1 = processFrame c f2.
Proof.
  intros c f1 f2 Hn H0 H8 Hc Hnow. unfold processFrame.
  rewrite Hc, Hnow.
  destruct (landmarks f1) as [| h1 r1], (landmarks f2) as [| h2 r2];
    try discriminate; [reflexivity |].
  cbn [nth_error] in H0. injection H0 as ->.
  destruct (readHand h2) as [rd |]; [| reflexivity].
  destruct (lastLandmark (refs (setStatus DETECTING c))) as [last |];
    [| reflexivity].
  destruct (clickLogic _ rd (clickClock f2)) as [c2 ev1].
  rewrite (decisionTree_second_hand c2 (h2 :: r1) (h2 :: r2) rd _ Hn H8).
  reflexivity.
Qed.

(** ** Evaluating the sample frames *)

Lemma deadzone_outside (d : R) :
  DEADZONE <= d \/ d <= - DEADZONE -> deadzone d = d.
Proof.
  intros H. unfold deadzone. rewrite Rltb_false; [reflexivity |].
  unfold DEADZONE in *. unfold Rabs. destruct (Rcase_abs d); lra.
Qed.

Lemma deadzone_inside (d : R) : - DEADZONE < d < DEADZONE -> deadzone d = 0.
Proof.
  intros H. unfold deadzone. rewrite Rltb_true; [reflexivity |].
  unfold DEADZONE in *. unfold Rabs. destruct (Rcase_abs d); lra.
Qed.

Ltac Rcompare :=
  repeat match goal with
    | |- context [Rltb ?a ?b] =>
        first [ rewrite (Rltb_true a b) by lra
              | rewrite (Rltb_false a b) by lra ]
    end.

Ltac Zcompare :=
  repeat match goal with
    | |- context [Z.ltb ?a ?b] =>
        let v := eval vm_compute in (Z.ltb a b) in change (Z.ltb a b) with v
    | |- context [Z.gtb ?a ?b] =>
        let v := eval vm_compute in (Z.gtb a b) in change (Z.gtb a b) with v
    end.

Ltac unfold_samples :=
  unfold oneHand, noHand, openPalm, pointing, sampleHand, tipA, tipB,
    thumbAway, thumbPinch, started, tracking, t0, toggleCamera.

Ltac reduce_cells :=
  cbn [landmarks clickClock nowClock nth_error nth bind px py refs
         lastLandmark smoothedPos lastPinchDist isTapped lastClickTime
         lastResetTime handLandmarker cameraActive status activeGesture
         indexTip indexOut middleOut ringOut pinkyOut tapDist
         set_lastLandmark set_smoothedPos set_lastPinchDist
         set_isTapped set_lastClickTime set_lastResetTime withRefs
         setHandLandmarker setCameraActive setStatus setActiveGesture
         initComponent initRefs fst snd negb andb app length Nat.eqb
         firstn option_map].

(** Runs [processFrame] on a frame given by its numbers. *)
Ltac step_frame :=
  unfold_samples;
  unfold processFrame, readHand, isExtended, clickLogic, decisionTree,
    pinchZoom, clickLocked, smoothing, isPalm,
    CLICK_THRESHOLD, CLICK_RELEASE;
  repeat (reduce_cells;
          rewrite ?extended_squares;
          rewrite ?hypot_ltb_squares, ?hypot_gtb_squares by lra;
          Rcompare; Zcompare).

Lemma readHand_openPalm (thumbTip : Point) :
  readHand (openPalm thumbTip tipA)
  = Some (mkReading tipA true true true true
            (hypot (px tipA - px thumbTip) (py tipA - py thumbTip))).
Proof.
  unfold readHand, isExtended. unfold_samples. reduce_cells.
  rewrite !extended_squares. Rcompare. reflexivity.
Qed.

Lemma readHand_pointing (thumbTip : Point) :
  readHand (pointing thumbTip tipA)
  = Some (mkReading tipA true false false false
            (hypot (px tipA - px thumbTip) (py tipA - py thumbTip))).
Proof.
  unfold readHand, isExtended. unfold_samples. reduce_cells.
  rewrite !extended_squares. Rcompare. reflexivity.
Qed.

(** ** Where the code departs from the specification *)

(** C1 refuted: after a first frame, a pinch made with the four fingers
    stretched sends [Click] and [Reset] in the same frame. *)
Lemma click_and_reset_in_one_frame :
  exists c1 c2,
    processFrame started (oneHand (openPalm thumbAway tipA) t0) = Done c1 []
    /\ processFrame c1 (oneHand (openPalm thumbPinch tipA) (t0 + 33))
       = Done c2 [Click 0.40 0.35; Reset].
Proof.
  eexists. eexists. split.
  - step_frame. reflexivity.
  - step_frame. reflexivity.
Qed.

(** C2 refuted: a first hand cut after landmark 18 (no pinky joint 19, no
    pinky tip 20) gets no classification of the pinky, and the frame step
    throws. *)
Lemma partial_hand_throws :
  isExtended (firstn 19 (openPalm thumbAway tipA)) 20 19 = None
  /\ isExtended (firstn 19 (openPalm thumbAway tipA)) 20 19 <> Some false
  /\ processFrame started (oneHand (firstn 19 (openPalm thumbAway tipA)) t0)
     = TypeError (setStatus DETECTING started) [].
Proof.
  split; [reflexivity |]. split; [discriminate |].
  apply (processFrame_unreadable _ _ (firstn 19 (openPalm thumbAway tipA)) []);
    [reflexivity |].
  apply (readHand_missing _ 20 19); [cbn; auto | reflexivity].
Qed.

(** C3 refuted: the index tip moves by 0.1 between two frames, which
    leaves 0.04 in [smoothedPos]; the frame with no hand that follows
    does not set it back to zero. *)
Lemma smoothedPos_survives_tracking_loss :
  exists c1 c2 c3 evs,
    processFrame started (oneHand (pointing thumbAway tipA) t0) = Done c1 []
    /\ processFrame c1 (oneHand (pointing thumbAway tipB) (t0 + 33))
       = Done c2 evs
    /\ processFrame c2 (noHand (t0 + 66)) = Done c3 []
    /\ px (smoothedPos (refs c3)) = 0.04
    /\ smoothedPos (refs c3) <> mkPoint 0 0.
Proof.
  eexists. eexists. eexists. eexists.
  split; [step_frame; reflexivity |].
  split; [step_frame; reflexivity |].
  split; [step_frame; reflexivity |].
  assert (E : smooth (deadzone (0.50 - 0.40)) 0 = 0.04).
  { rewrite deadzone_outside by (left; unfold DEADZONE; lra).
    unfold smooth, ALPHA. lra. }
  split.
  - reduce_cells. exact E.
  - reduce_cells. intros H. apply (f_equal px) in H. cbn [px] in H.
    rewrite E in H. lra.
Qed.

(** C4 refuted: a first frame and a pinch, then stop and start again; the
    restarted capture still holds the fingertip position, the engaged
    latch and the click timestamp. *)
Lemma restart_keeps_interpreter_state :
  exists c1 c2,
    processFrame started (oneHand (pointing thumbAway tipA) t0) = Done c1 []
    /\ processFrame c1 (oneHand (pointing thumbPinch tipA) (t0 + 33))
       = Done c2 [Click 0.40 0.35]
    /\ cameraActive (fst (toggleCamera c2 StreamGranted)) = false
    /\ cameraActive (fst (toggleCamera (fst (toggleCamera c2 StreamGranted))
                            StreamGranted)) = true
    /\ refs (fst (toggleCamera (fst (toggleCamera c2 StreamGranted))
                    StreamGranted)) <> initRefs
    /\ lastLandmark (refs (fst (toggleCamera
                                  (fst (toggleCamera c2 StreamGranted))
                                  StreamGranted))) = Some tipA
    /\ isTapped (refs (fst (toggleCamera
                              (fst (toggleCamera c2 StreamGranted))
                              StreamGranted))) = true
    /\ lastClickTime (refs (fst (toggleCamera
                                  (fst (toggleCamera c2 StreamGranted))
                                  StreamGranted))) = (t0 + 33)%Z.
Proof.
  eexists. eexists.
  split; [step_frame; reflexivity |].
  split; [step_frame; reflexivity |].
  split; [reflexivity |]. split; [reflexivity |].
  rewrite !toggleCamera_refs.
  split; [| split; [reflexivity | split; reflexivity]].
  intros H. apply (f_equal isTapped) in H. discriminate H.
Qed.

(** ** Instances *)

Lemma tracking_reached :
  processFrame started (oneHand (pointing thumbAway tipA) t0)
  = Done tracking [].
Proof. step_frame. reflexivity. Qed.

Lemma processFrame_one_event_or_click_then_reset_witness :
  (nowClock (oneHand (openPalm thumbPinch tipA) t0)
   - clickClock (oneHand (openPalm thumbPinch tipA) t0) < 400)%Z
  /\ (eventsOf (processFrame tracking (oneHand (openPalm thumbPinch tipA) t0))
      = []
      \/ (exists x y,
             eventsOf (processFrame tracking
                         (oneHand (openPalm thumbPinch tipA) t0))
             = [Click x y])
      \/ (exists e,
             eventsOf (processFrame tracking
                         (oneHand (openPalm thumbPinch tipA) t0)) = [e]
             /\ treeEvent e = true)
      \/ (exists x y,
             eventsOf (processFrame tracking
                         (oneHand (openPalm thumbPinch tipA) t0))
             = [Click x y; Reset])).
Proof.
  split.
  - reflexivity.
  - apply (processFrame_one_event_or_click_then_reset tracking
             (oneHand (openPalm thumbPinch tipA) t0)).
    reflexivity.
Defined.

Lemma processFrame_throws_exactly_on_missing_landmark_witness :
  (exists c' evs,
      processFrame started (oneHand (openPalm thumbAway tipA) t0)
      = Done c' evs)
  /\ isExtended (firstn 10 (openPalm thumbAway tipA)) 12 11 = None
  /\ processFrame started (oneHand (firstn 10 (openPalm thumbAway tipA)) t0)
     = TypeError (setStatus DETECTING started) [].
Proof.
  split.
  - apply (proj1 (processFrame_throws_exactly_on_missing_landmark started
                    (oneHand (openPalm thumbAway tipA) t0))).
    reflexivity.
  - apply (proj2 (processFrame_throws_exactly_on_missing_landmark started
                    (oneHand (firstn 10 (openPalm thumbAway tipA)) t0))
             (firstn 10 (openPalm thumbAway tipA)) [] 12%nat 11%nat).
    + reflexivity.
    + right. left. reflexivity.
    + right. left. reflexivity.
Defined.

Lemma processFrame_first_frame_only_records_witness :
  exists tip,
    nth_error (openPalm thumbPinch tipA) 8 = Some tip
    /\ processFrame started (oneHand (openPalm thumbPinch tipA) t0)
       = Done (mkComponent
                 (mkRefs (Some tip) (smoothedPos (refs started)) None
                         (isTapped (refs started))
                         (lastClickTime (refs started))
                         (lastResetTime (refs started)))
                 (handLandmarker started) (cameraActive started) DETECTING
                 (activeGesture started)) [].
Proof.
  apply (processFrame_first_frame_only_records started
           (oneHand (openPalm thumbPinch tipA) t0)
           (openPalm thumbPinch tipA) []); reflexivity.
Defined.

Lemma processFrame_reads_only_index_tip_of_second_hand_witness :
  processFrame tracking
    (mkFrame [pointing thumbAway tipA; openPalm thumbAway tipB] t0 t0)
  = processFrame tracking
      (mkFrame [pointing thumbAway tipA; pointing thumbPinch tipB] t0 t0).
Proof.
  apply processFrame_reads_only_index_tip_of_second_hand; reflexivity.
Defined.

(** ** C7: two-hand pinch zoom *)

Lemma clickLogic_keeps (c : Component) (rd : Reading) (t : Z) :
  lastLandmark (refs (fst (clickLogic c rd t))) = lastLandmark (refs c)
  /\ smoothedPos (refs (fst (clickLogic c rd t))) = smoothedPos (refs c)
  /\ lastPinchDist (refs (fst (clickLogic c rd t))) = lastPinchDist (refs c).
Proof.
  unfold clickLogic.
  destruct (Rltb (tapDist rd) CLICK_THRESHOLD).
  - cbn [setActiveGesture refs]. destruct (isTapped (refs c)); cbn; auto.
  - destruct (Rgtb (tapDist rd) CLICK_RELEASE); cbn; auto.
Qed.

Lemma clickLogic_no_zoom (c : Component) (rd : Reading) (t : Z) (z : R) :
  ~ In (Zoom z) (snd (clickLogic c rd t)).
Proof.
  destruct (clickLogic_events c rd t) as [[-> _] | [-> _]]; cbn [In].
  - tauto.
  - intros [H | []]. discriminate H.
Qed.

Lemma pinch_zoom_step (c : Component) (f : Frame) (hand hand2 : Hand)
    (rd : Reading) (last tip2 : Point) (prev : R) :
  landmarks f = [hand; hand2] ->
  readHand hand = Some rd ->
  nth_error hand2 8 = Some tip2 ->
  lastLandmark (refs c) = Some last ->
  lastPinchDist (refs c) = Some prev ->
  reachesPinchZoom c f last rd = true ->
  let dist := hypot (px (indexTip rd) - px tip2) (py (indexTip rd) - py tip2) in
  let delta := (dist - prev) * 20 in
  exists c',
    processFrame c f
    = Done c' (snd (clickLogic (smoothed c last rd) rd (clickClock f))
               ++ (if Rgtb (Rabs delta) 0.005 then [Zoom delta] else []))
    /\ lastPinchDist (refs c') = Some dist.
Proof.
  intros Hl Hrd H2 L P Hreach dist delta.
  unfold reachesPinchZoom in Hreach.
  apply andb_prop in Hreach as [Hreach Hn].
  apply andb_prop in Hreach as [Hpalm Hlock].
  apply negb_true_iff in Hpalm, Hlock.
  rewrite (processFrame_tracked c f hand [hand2] rd last Hl Hrd L).
  destruct (clickLogic_keeps (smoothed c last rd) rd (clickClock f))
    as (_ & _ & Hp).
  unfold decisionTree. rewrite Hpalm, Hlock, Hn.
  unfold pinchZoom. rewrite Hl. cbn [nth]. rewrite H2.
  cbn [setActiveGesture refs]. rewrite Hp.
  unfold smoothed, smoothing. cbn [withRefs refs set_smoothedPos lastPinchDist].
  cbn [setStatus refs]. rewrite P.
  eexists. split; [reflexivity |]. reflexivity.
Qed.

(** C7: on a tracked frame that reaches the two-hand branch with a
    previous pinch distance [prev], the step returns; with [dist] the
    distance between the two index tips and [delta = (dist - prev) * 20],
    it sends [Zoom delta] exactly when [|delta| > 0.005] and no other
    [Zoom], and it stores [dist] in [lastPinchDist] in both cases.  With
    [prev = 0.08] and [dist = 0.10] the event is [Zoom 0.4]. *)
Theorem pinch_zoom_emits_scaled_delta :
  forall (c : Component) (f : Frame) (hand hand2 : Hand) (rd : Reading)
         (last tip2 : Point) (prev : R),
    landmarks f = [hand; hand2] ->
    readHand hand = Some rd ->
    nth_error hand2 8 = Some tip2 ->
    lastLandmark (refs c) = Some last ->
    lastPinchDist (refs c) = Some prev ->
    reachesPinchZoom c f last rd = true ->
    let dist :=
      hypot (px (indexTip rd) - px tip2) (py (indexTip rd) - py tip2) in
    let delta := (dist - prev) * 20 in
    exists c' evs,
      processFrame c f = Done c' evs
      /\ (forall z, In (Zoom z) evs <-> z = delta /\ Rabs delta > 0.005)
      /\ lastPinchDist (refs c') = Some dist
      /\ (prev = 0.08 -> dist = 0.10 -> In (Zoom 0.4) evs).
Proof.
  intros c f hand hand2 rd last tip2 prev Hl Hrd H2 L P Hreach dist delta.
  destruct (pinch_zoom_step c f hand hand2 rd last tip2 prev
              Hl Hrd H2 L P Hreach) as (c' & Hstep & Hdist).
  fold dist in Hstep, Hdist. fold delta in Hstep.
  exists c'. eexists. split; [exact Hstep |].
  assert (Hz : forall z,
             In (Zoom z)
                (snd (clickLogic (smoothed c last rd) rd (clickClock f))
                 ++ (if Rgtb (Rabs delta) 0.005 then [Zoom delta] else []))
             <-> z = delta /\ Rabs delta > 0.005).
  { intros z. rewrite in_app_iff. split.
    - intros [H | H]; [exfalso; exact (clickLogic_no_zoom _ _ _ _ H) |].
      destruct (Rgtb (Rabs delta) 0.005) eqn:G; [| destruct H].
      apply Rltb_true_iff in G. destruct H as [H | []].
      injection H as <-. split; [reflexivity | exact G].
    - intros [-> G]. right. unfold Rgtb.
      rewrite (Rltb_true _ _ G). left. reflexivity. }
  split; [exact Hz |]. split; [exact Hdist |].
  intros Hprev Hd. apply Hz.
  assert (E : delta = 0.4) by (unfold delta; rewrite Hprev, Hd; lra).
  rewrite E. split; [reflexivity |].
  unfold Rabs. destruct (Rcase_abs 0.4); lra.
Qed.

(** Two hands seen on three frames in a row, the index tips 0.08 apart on
    the second and 0.10 apart on the third: the third sends [Zoom 0.4]. *)
Lemma two_hand_zoom_scenario :
  exists c1 c2 c3,
    processFrame started
      (mkFrame [pointing thumbAway tipA;
                pointing thumbAway (mkPoint 0.48 0.35)] t0 t0)
    = Done c1 []
    /\ processFrame c1
         (mkFrame [pointing thumbAway tipA;
                   pointing thumbAway (mkPoint 0.48 0.35)]
                  (t0 + 33) (t0 + 33))
       = Done c2 []
    /\ lastPinchDist (refs c2) = Some 0.08
    /\ processFrame c2
         (mkFrame [pointing thumbAway tipA; pointing thumbAway tipB]
                  (t0 + 66) (t0 + 66))
       = Done c3 [Zoom 0.4]
    /\ lastPinchDist (refs c3) = Some 0.10.
Proof.
  assert (D1 : hypot (0.40 - 0.48) (0.35 - 0.35) = 0.08)
    by (apply hypot_eq; lra).
  assert (D2 : hypot (0.40 - 0.50) (0.35 - 0.35) = 0.10)
    by (apply hypot_eq; lra).
  assert (A : Rabs ((0.10 - 0.08) * 20) = 0.4).
  { unfold Rabs. destruct (Rcase_abs ((0.10 - 0.08) * 20)); lra. }
  eexists. eexists. eexists.
  split; [step_frame; reflexivity |].
  split; [step_frame; reflexivity |].
  split; [reduce_cells; rewrite D1; reflexivity |].
  split.
  - step_frame. rewrite D1, D2. unfold Rgtb. rewrite A.
    rewrite (Rltb_true 0.005 0.4) by lra.
    replace ((0.10 - 0.08) * 20) with 0.4 by lra. reflexivity.
  - reflexivity.
Qed.

Lemma pinch_zoom_emits_scaled_delta_witness :
  exists c' evs,
    processFrame (withRefs (set_lastPinchDist (Some 0.08)) tracking)
      (mkFrame [pointing thumbAway tipA; pointing thumbAway tipB]
               (t0 + 33) (t0 + 33))
    = Done c' evs
    /\ In (Zoom 0.4) evs
    /\ lastPinchDist (refs c') = Some 0.10.
Proof.
  assert (D : hypot (px tipA - px tipB) (py tipA - py tipB) = 0.10).
  { apply hypot_eq; unfold tipA, tipB; cbn [px py]; lra. }
  destruct (pinch_zoom_emits_scaled_delta
              (withRefs (set_lastPinchDist (Some 0.08)) tracking)
              (mkFrame [pointing thumbAway tipA; pointing thumbAway tipB]
                       (t0 + 33) (t0 + 33))
              (pointing thumbAway tipA) (pointing thumbAway tipB)
              (mkReading tipA true false false false
                 (hypot (px tipA - px thumbAway) (py tipA - py thumbAway)))
              tipA tipB 0.08)
    as (c' & evs & Hstep & _ & Hdist & Hzoom).
  - reflexivity.
  - apply readHand_pointing.
  - reflexivity.
  - reflexivity.
  - reflexivity.
  - unfold reachesPinchZoom, smoothed. step_frame. reflexivity.
  - exists c', evs. cbn [indexTip] in Hdist, Hzoom.
    split; [exact Hstep |]. split.
    + apply Hzoom; [reflexivity | exact D].
    + rewrite Hdist, D. reflexivity.
Defined.

(** ** Exponential smoothing (lines 133-134) *)

Lemma pinchZoom_keeps (c : Component) (results : Results) (rd : Reading) :
  lastLandmark (refs (stateOf (pinchZoom c results rd)))
  = lastLandmark (refs c)
  /\ smoothedPos (refs (stateOf (pinchZoom c results rd)))
     = smoothedPos (refs c)
  /\ isTapped (refs (stateOf (pinchZoom c results rd))) = isTapped (refs c)
  /\ lastClickTime (refs (stateOf (pinchZoom c results rd)))
     = lastClickTime (refs c).
Proof.
  unfold pinchZoom.
  destruct (nth_error (nth 1 results []) 8); cbn; auto.
Qed.

Lemma decisionTree_keeps (c : Component) (results : Results) (rd : Reading)
    (now : Z) :
  lastLandmark (refs (stateOf (decisionTree c results rd now)))
  = lastLandmark (refs c)
  /\ smoothedPos (refs (stateOf (decisionTree c results rd now)))
     = smoothedPos (refs c)
  /\ isTapped (refs (stateOf (decisionTree c results rd now)))
     = isTapped (refs c)
  /\ lastClickTime (refs (stateOf (decisionTree c results rd now)))
     = lastClickTime (refs c).
Proof.
  unfold decisionTree.
  destruct (isPalm rd).
  { destruct (now - lastResetTime (refs c) >? 2000)%Z; cbn; auto. }
  destruct (clickLocked c now); [cbn; auto |].
  destruct (length results =? 2)%nat; [apply pinchZoom_keeps |].
  destruct (middleOut rd && indexOut rd && negb (ringOut rd)); [cbn; auto |].
  destruct (indexOut rd && negb (middleOut rd)); cbn; auto.
Qed.

(** A tracked frame that returns has put each displacement through
    [deadzone] and [smooth]. *)
Lemma processFrame_smooths (c c' : Component) (f : Frame) hand rest rd last
    evs :
  landmarks f = hand :: rest -> readHand hand = Some rd ->
  lastLandmark (refs c) = Some last ->
  processFrame c f = Done c' evs ->
  smoothedPos (refs c')
  = mkPoint (smooth (deadzone (px (indexTip rd) - px last))
                    (px (smoothedPos (refs c))))
            (smooth (deadzone (py (indexTip rd) - py last))
                    (py (smoothedPos (refs c)))).
Proof.
  intros Hl Hrd L Hstep.
  rewrite (processFrame_tracked c f hand rest rd last Hl Hrd L) in Hstep.
  destruct (decisionTree_keeps
              (fst (clickLogic (smoothed c last rd) rd (clickClock f)))
              (landmarks f) rd (nowClock f)) as (_ & Hs & _).
  destruct (clickLogic_keeps (smoothed c last rd) rd (clickClock f))
    as (_ & Hs' & _).
  destruct (decisionTree _ _ _ _) as [c3 ev2 | c3 ev2]; [| discriminate].
  injection Hstep as <- _. cbn [stateOf] in Hs.
  cbn [withRefs refs set_lastLandmark smoothedPos].
  rewrite Hs, Hs'. reflexivity.
Qed.

Lemma smooth_gap (d s : R) : d - smooth d s = (1 - ALPHA) * (d - s).
Proof. unfold smooth. ring. Qed.

Lemma smoothN_gap (d : R) (n : nat) :
  d - smoothN d n = d * (1 - ALPHA) ^ n.
Proof.
  induction n as [| n IH]; cbn [smoothN pow].
  - ring.
  - rewrite smooth_gap, IH. ring.
Qed.

Lemma retain_pow_bounds (n : nat) : 0 < (1 - ALPHA) ^ n <= 1.
Proof.
  unfold ALPHA. induction n as [| n IH]; cbn [pow]; [lra | nra].
Qed.

Lemma smoothN_between (d : R) (n : nat) :
  (0 <= d -> 0 <= smoothN d n <= d) /\ (d <= 0 -> d <= smoothN d n <= 0).
Proof.
  pose proof (smoothN_gap d n) as G. pose proof (retain_pow_bounds n) as B.
  split; intros Hd; nra.
Qed.

Lemma smoothN_gap_shrinks (d : R) (n : nat) :
  Rabs (d - smoothN d (S n)) <= Rabs (d - smoothN d n)
  /\ (d <> 0 -> Rabs (d - smoothN d (S n)) < Rabs (d - smoothN d n)).
Proof.
  cbn [smoothN]. rewrite smooth_gap, Rabs_mult.
  rewrite (Rabs_right (1 - ALPHA)) by (unfold ALPHA; lra).
  pose proof (Rabs_pos (d - smoothN d n)) as P.
  split; [unfold ALPHA; lra |].
  intros Hd.
  assert (0 < Rabs (d - smoothN d n)).
  { apply Rabs_pos_lt. rewrite smoothN_gap.
    pose proof (retain_pow_bounds n). nra. }
  unfold ALPHA. lra.
Qed.

Lemma smoothN_limit (d eps : R) :
  0 < eps ->
  exists N, forall m, (N <= m)%nat -> Rabs (d - smoothN d m) < eps.
Proof.
  intros Heps.
  destruct (Req_dec d 0) as [-> | Hd].
  { exists O. intros m _. rewrite smoothN_gap, Rmult_0_l, Rabs_R0. exact Heps. }
  assert (Habs : 0 < Rabs d) by (apply Rabs_pos_lt; exact Hd).
  destruct (pow_lt_1_zero (1 - ALPHA)) with (y := eps / Rabs d) as [N HN].
  { unfold ALPHA. rewrite Rabs_right; lra. }
  { apply Rdiv_lt_0_compat; assumption. }
  exists N. intros m Hm. rewrite smoothN_gap, Rabs_mult.
  specialize (HN m Hm).
  apply (Rmult_lt_compat_l (Rabs d)) in HN; [| exact Habs].
  replace (Rabs d * (eps / Rabs d)) with eps in HN by (field; lra).
  exact HN.
Qed.

Lemma smoothFrom_shift (d s : R) (n : nat) :
  smoothFrom d (smooth d s) n = smooth d (smoothFrom d s n).
Proof.
  induction n as [| n IH]; cbn [smoothFrom]; [reflexivity |].
  rewrite IH. reflexivity.
Qed.

Lemma smoothFrom_zero (d : R) (n : nat) : smoothFrom d 0 n = smoothN d n.
Proof.
  induction n as [| n IH]; cbn [smoothFrom smoothN]; [reflexivity |].
  rewrite IH. reflexivity.
Qed.

(** Over tracked frames whose index tip moves by the same [d] each time,
    the loop applies [smooth] to the deadzoned displacement once per
    frame. *)
Lemma run_advancing (fs : list Frame) :
  forall c c' log p d,
    lastLandmark (refs c) = Some p ->
    advancing p d fs ->
    run c fs = Ran c' log ->
    smoothedPos (refs c')
    = mkPoint (smoothFrom (deadzone (px d)) (px (smoothedPos (refs c)))
                          (length fs))
              (smoothFrom (deadzone (py d)) (py (smoothedPos (refs c)))
                          (length fs)).
Proof.
  induction fs as [| f fs IH]; intros c c' log p d L Hadv Hrun.
  - cbn [run] in Hrun. injection Hrun as <- _. cbn [length smoothFrom].
    destruct (smoothedPos (refs c)); reflexivity.
  - destruct Hadv as (hand & rest & rd & Hl & E & Hx & Hy & Hadv).
    cbn [run] in Hrun.
    destruct (processFrame c f) as [c1 evs | c1 evs] eqn:Hstep;
      [| discriminate].
    destruct (run c1 fs) as [c2 log2 | c2 log2] eqn:Hrest; [| discriminate].
    injection Hrun as <- _.
    pose proof (processFrame_smooths c c1 f hand rest rd p evs Hl E L Hstep)
      as Hs.
    rewrite Hx, Hy in Hs.
    assert (L1 : lastLandmark (refs c1) = Some (indexTip rd)).
    { rewrite (processFrame_tracked c f hand rest rd p Hl E L) in Hstep.
      destruct (decisionTree _ _ _ _); [| discriminate].
      injection Hstep as <- _. reflexivity. }
    rewrite (IH c1 c2 log2 (indexTip rd) d L1 Hadv Hrest), Hs.
    cbn [px py length smoothFrom]. rewrite !smoothFrom_shift. reflexivity.
Qed.

(** From a zero [smoothedPos], [n] such frames leave
    [smoothN (deadzone d) n] on each axis. *)
Lemma run_constant_displacement (fs : list Frame) (c c' : Component)
    (log : list (Z * GestureEvent)) (p d : Point) :
  lastLandmark (refs c) = Some p ->
  smoothedPos (refs c) = mkPoint 0 0 ->
  advancing p d fs ->
  run c fs = Ran c' log ->
  smoothedPos (refs c')
  = mkPoint (smoothN (deadzone (px d)) (length fs))
            (smoothN (deadzone (py d)) (length fs)).
Proof.
  intros L Z0 Hadv Hrun.
  rewrite (run_advancing fs c c' log p d L Hadv Hrun), Z0.
  cbn [px py]. rewrite !smoothFrom_zero. reflexivity.
Qed.

(** ** Runs of the frame loop *)

Lemma run_cons (c : Component) (f : Frame) (fs : list Frame) :
  logOf (run c (f :: fs))
  = stamp f (eventsOf (processFrame c f))
    ++ match processFrame c f with
       | Done c1 _ => logOf (run c1 fs)
       | TypeError _ _ => []
       end.
Proof.
  cbn [run]. destruct (processFrame c f) as [c1 evs | c1 evs]; cbn [eventsOf].
  - destruct (run c1 fs); reflexivity.
  - cbn [logOf]. rewrite app_nil_r. reflexivity.
Qed.

Lemma resetTimes_app (l1 l2 : list (Z * GestureEvent)) :
  resetTimes (l1 ++ l2) = resetTimes l1 ++ resetTimes l2.
Proof. unfold resetTimes. rewrite filter_app, map_app. reflexivity. Qed.

Lemma resetTimes_stamp_click (f : Frame) (evs : list GestureEvent) :
  (forall e, In e evs -> isReset e = false) ->
  resetTimes (stamp f evs) = [].
Proof.
  intros H. unfold resetTimes, stamp.
  induction evs as [| e evs IH]; [reflexivity |].
  cbn [map filter snd]. rewrite (H e) by (left; reflexivity).
  apply IH. intros e' He'. apply H. right. exact He'.
Qed.

(** ** C6: the reset cooldown *)

Lemma clickLogic_no_reset (c : Component) (rd : Reading) (t : Z) :
  forall e, In e (snd (clickLogic c rd t)) -> isReset e = false.
Proof.
  intros e. destruct (clickLogic_events c rd t) as [[-> _] | [-> _]];
    cbn [In]; [tauto |].
  intros [<- | []]. reflexivity.
Qed.

(** What the decision tree does about [Reset]: it sends it on an open palm
    whose cooldown has run out, and then records the clock; otherwise it
    neither sends it nor touches [lastResetTime]. *)
Lemma decisionTree_reset (c : Component) (results : Results) (rd : Reading)
    (now : Z) :
  (isPalm rd = true /\ (now - lastResetTime (refs c) > 2000)%Z
   /\ decisionTree c results rd now
      = Done (withRefs (set_lastResetTime now)
                (setActiveGesture (Some RESET_VIEW) c)) [Reset])
  \/ ((isPalm rd = false \/ (now - lastResetTime (refs c) <= 2000)%Z)
      /\ (forall e, In e (eventsOf (decisionTree c results rd now)) ->
                    isReset e = false)
      /\ lastResetTime (refs (stateOf (decisionTree c results rd now)))
         = lastResetTime (refs c)).
Proof.
  unfold decisionTree.
  destruct (isPalm rd).
  { destruct (now - lastResetTime (refs c) >? 2000)%Z eqn:G.
    - left. apply Z.gtb_lt in G. repeat split. lia.
    - right. split; [right; rewrite Z.gtb_ltb in G; apply Z.ltb_ge in G; lia |].
      cbn. tauto. }
  right. split; [left; reflexivity |].
  destruct (clickLocked c now); [cbn; tauto |].
  destruct (length results =? 2)%nat.
  { unfold pinchZoom.
    destruct (nth_error (nth 1 results []) 8); [| cbn; tauto].
    cbn [eventsOf stateOf setActiveGesture refs withRefs set_lastPinchDist
           lastResetTime].
    split; [| reflexivity].
    destruct (lastPinchDist (refs c)); [| cbn; tauto].
    match goal with |- context [Rgtb ?a ?b] => destruct (Rgtb a b) end;
      cbn [In]; [| tauto].
    intros e [<- | []]. reflexivity. }
  destruct (middleOut rd && indexOut rd && negb (ringOut rd)).
  { cbn. split; [| reflexivity]. intros e [<- | []]. reflexivity. }
  destruct (indexOut rd && negb (middleOut rd)).
  { cbn. split; [| reflexivity]. intros e [<- | []]. reflexivity. }
  cbn. tauto.
Qed.

(** One frame sends at most one [Reset], more than 2000 ms after the
    recorded one, and records its clock; without [Reset] the record
    stays. *)
Lemma processFrame_reset (c : Component) (f : Frame) :
  (resetTimes (stamp f (eventsOf (processFrame c f))) = []
   /\ lastResetTime (refs (stateOf (processFrame c f)))
      = lastResetTime (refs c))
  \/ (resetTimes (stamp f (eventsOf (processFrame c f))) = [nowClock f]
      /\ (nowClock f - lastResetTime (refs c) > 2000)%Z
      /\ lastResetTime (refs (stateOf (processFrame c f))) = nowClock f).
Proof.
  destruct (processFrame_cases c f)
    as [Hl | [(hand & rest & Hl & E) | [(hand & rest & rd & Hl & E & L)
                                       | (hand & rest & rd & last & Hl & E & L)]]].
  - rewrite (processFrame_lost c f Hl). left. split; reflexivity.
  - rewrite (processFrame_unreadable c f hand rest Hl E). left.
    split; reflexivity.
  - rewrite (processFrame_first c f hand rest rd Hl E L). left.
    split; reflexivity.
  - rewrite (processFrame_tracked c f hand rest rd last Hl E L).
    set (c2 := fst (clickLogic (smoothed c last rd) rd (clickClock f))).
    set (ev1 := snd (clickLogic (smoothed c last rd) rd (clickClock f))).
    assert (Hr : lastResetTime (refs c2) = lastResetTime (refs c)).
    { unfold c2. rewrite clickLogic_lastResetTime. reflexivity. }
    assert (H1 : resetTimes (stamp f ev1) = []).
    { apply resetTimes_stamp_click. apply clickLogic_no_reset. }
    destruct (decisionTree_reset c2 (landmarks f) rd (nowClock f))
      as [(_ & G & ->) | (_ & Hno & Hkeep)].
    + right. cbn [eventsOf stateOf]. unfold stamp at 1.
      rewrite map_app. fold (stamp f ev1). rewrite resetTimes_app, H1.
      rewrite Hr in G. repeat split; [exact G].
    + left. destruct (decisionTree c2 (landmarks f) rd (nowClock f))
        as [c3 ev2 | c3 ev2]; cbn [eventsOf stateOf] in *;
        (split; [| cbn [withRefs refs set_lastLandmark lastResetTime];
                   congruence]);
        unfold stamp; rewrite map_app; fold (stamp f ev1); fold (stamp f ev2);
        rewrite resetTimes_app, H1; apply resetTimes_stamp_click, Hno.
Qed.

Lemma run_resets_spaced (fs : list Frame) :
  forall c, spaced (lastResetTime (refs c)) (resetTimes (logOf (run c fs))).
Proof.
  induction fs as [| f fs IH]; intros c; [exact I |].
  rewrite run_cons, resetTimes_app.
  destruct (processFrame_reset c f) as [[-> Hk] | (-> & G & Hk)].
  - cbn [app]. destruct (processFrame c f) as [c1 evs | c1 evs];
      cbn [stateOf] in Hk.
    + rewrite <- Hk. apply IH.
    + exact I.
  - cbn [app spaced]. split; [exact G |].
    destruct (processFrame c f) as [c1 evs | c1 evs]; cbn [stateOf] in Hk.
    + rewrite <- Hk. apply IH.
    + exact I.
Qed.

Lemma spaced_after_window (ts : list Z) :
  forall last w, spaced last ts -> (w <= last)%Z -> inWindow w ts = [].
Proof.
  induction ts as [| t ts IH]; intros last w Hs Hw; [reflexivity |].
  destruct Hs as [G Hs]. unfold inWindow. cbn [filter].
  replace (t <=? w + 2000)%Z with false by (symmetry; apply Z.leb_gt; lia).
  rewrite andb_false_r. apply (IH t w Hs). lia.
Qed.

Lemma spaced_window (ts : list Z) :
  forall last w, spaced last ts -> (length (inWindow w ts) <= 1)%nat.
Proof.
  induction ts as [| t ts IH]; intros last w Hs; [cbn; lia |].
  destruct Hs as [G Hs]. unfold inWindow. cbn [filter].
  destruct ((w <=? t)%Z && (t <=? w + 2000)%Z) eqn:Hin.
  - apply andb_prop in Hin as [Hw _]. apply Z.leb_le in Hw.
    fold (inWindow w ts). rewrite (spaced_after_window ts t w Hs Hw).
    cbn. lia.
  - apply (IH t w Hs).
Qed.

Lemma clickLogic_silent (c : Component) (rd : Reading) (t : Z) :
  isTapped (refs c) = true \/ CLICK_THRESHOLD <= tapDist rd ->
  snd (clickLogic c rd t) = [].
Proof.
  intros H. unfold clickLogic.
  destruct (Rltb (tapDist rd) CLICK_THRESHOLD) eqn:B.
  - cbn [setActiveGesture refs]. apply Rltb_true_iff in B.
    destruct H as [-> | H]; [reflexivity | lra].
  - destruct (Rgtb (tapDist rd) CLICK_RELEASE); reflexivity.
Qed.

Lemma palm_within_cooldown (c : Component) (f : Frame) hand rest rd last :
  landmarks f = hand :: rest -> readHand hand = Some rd ->
  lastLandmark (refs c) = Some last ->
  isPalm rd = true ->
  (nowClock f - lastResetTime (refs c) <= 2000)%Z ->
  exists c',
    processFrame c f
    = Done c' (snd (clickLogic (smoothed c last rd) rd (clickClock f)))
    /\ lastResetTime (refs c') = lastResetTime (refs c).
Proof.
  intros Hl E L Hpalm Hcool.
  rewrite (processFrame_tracked c f hand rest rd last Hl E L).
  unfold decisionTree. rewrite Hpalm, clickLogic_lastResetTime.
  cbn [smoothed withRefs refs setStatus smoothing set_smoothedPos
         lastResetTime].
  replace (nowClock f - lastResetTime (refs c) >? 2000)%Z with false
    by (symmetry; rewrite Z.gtb_ltb; apply Z.ltb_ge; lia).
  eexists. rewrite app_nil_r. split; [reflexivity |].
  cbn [withRefs refs set_lastLandmark lastResetTime].
  rewrite clickLogic_lastResetTime. reflexivity.
Qed.

Lemma reset_only_on_palm (c : Component) (f : Frame) :
  In Reset (eventsOf (processFrame c f)) ->
  (nowClock f - lastResetTime (refs c) > 2000)%Z
  /\ exists hand rest rd,
       landmarks f = hand :: rest /\ readHand hand = Some rd
       /\ isPalm rd = true.
Proof.
  destruct (processFrame_cases c f)
    as [Hl | [(hand & rest & Hl & E) | [(hand & rest & rd & Hl & E & L)
                                       | (hand & rest & rd & last & Hl & E & L)]]].
  - rewrite (processFrame_lost c f Hl). intros [].
  - rewrite (processFrame_unreadable c f hand rest Hl E). intros [].
  - rewrite (processFrame_first c f hand rest rd Hl E L). intros [].
  - rewrite (processFrame_events c f hand rest rd last Hl E L).
    rewrite in_app_iff. intros [H | H].
    + apply clickLogic_no_reset in H. discriminate H.
    + destruct (decisionTree_reset
                  (fst (clickLogic (smoothed c last rd) rd (clickClock f)))
                  (landmarks f) rd (nowClock f))
        as [(Hp & G & _) | (_ & Hno & _)].
      * rewrite clickLogic_lastResetTime in G.
        split; [exact G |]. exists hand, rest, rd. auto.
      * apply Hno in H. discriminate H.
Qed.

(** C6 (as the code has it): over any run of frames the [Reset] events are
    more than 2000 ms apart, so no window of 2000 ms holds two of them.
    A tracked open-palm frame that comes within 2000 ms of the recorded
    reset sends no [Reset] and leaves [lastResetTime] alone; the only
    event it can still send is the [Click] of the pinch latch, and it
    sends nothing when the latch is engaged or the pinch is not made.
    Nothing is kept for later: a frame sends [Reset] only if it is itself
    an open palm with the cooldown over. *)
Theorem reset_at_most_once_per_cooldown :
  forall (c : Component) (fs : list Frame),
    spaced (lastResetTime (refs c)) (resetTimes (logOf (run c fs)))
    /\ (forall w,
          (length (inWindow w (resetTimes (logOf (run c fs)))) <= 1)%nat)
    /\ (forall f hand rest rd last,
          landmarks f = hand :: rest -> readHand hand = Some rd ->
          lastLandmark (refs c) = Some last ->
          isPalm rd = true ->
          (nowClock f - lastResetTime (refs c) <= 2000)%Z ->
          exists c' evs,
            processFrame c f = Done c' evs
            /\ (evs = []
                \/ evs = [Click (px (indexTip rd)) (py (indexTip rd))])
            /\ (isTapped (refs c) = true \/ CLICK_THRESHOLD <= tapDist rd ->
                evs = [])
            /\ lastResetTime (refs c') = lastResetTime (refs c))
    /\ (forall f,
          In Reset (eventsOf (processFrame c f)) ->
          (nowClock f - lastResetTime (refs c) > 2000)%Z
          /\ exists hand rest rd,
               landmarks f = hand :: rest /\ readHand hand = Some rd
               /\ isPalm rd = true).
Proof.
  intros c fs. split; [apply run_resets_spaced |].
  split.
  { intros w. apply (spaced_window _ (lastResetTime (refs c))).
    apply run_resets_spaced. }
  split; [| intros f; apply reset_only_on_palm].
  intros f hand rest rd last Hl E L Hpalm Hcool.
  destruct (palm_within_cooldown c f hand rest rd last Hl E L Hpalm Hcool)
    as (c' & Hstep & Hkeep).
  exists c'. eexists. split; [exact Hstep |].
  split.
  - destruct (clickLogic_events (smoothed c last rd) rd (clickClock f))
      as [[-> _] | [-> _]]; auto.
  - split; [| exact Hkeep].
    intros H. apply clickLogic_silent. exact H.
Qed.

(** C6 refuted: the frame after a [Reset] shows the open palm again, 33 ms
    later and with a pinch; the cooldown suppresses the [Reset], yet the
    frame sends an event, the [Click]. *)
Lemma suppressed_palm_still_clicks :
  exists c1 c2 c3,
    processFrame started (oneHand (openPalm thumbAway tipA) t0) = Done c1 []
    /\ processFrame c1 (oneHand (openPalm thumbAway tipA) (t0 + 33))
       = Done c2 [Reset]
    /\ lastResetTime (refs c2) = (t0 + 33)%Z
    /\ (exists rd, readHand (openPalm thumbPinch tipA) = Some rd
                   /\ isPalm rd = true)
    /\ processFrame c2 (oneHand (openPalm thumbPinch tipA) (t0 + 66))
       = Done c3 [Click 0.40 0.35].
Proof.
  eexists. eexists. eexists.
  split; [step_frame; reflexivity |].
  split; [step_frame; reflexivity |].
  split; [reflexivity |].
  split; [eexists; split; [apply readHand_openPalm | reflexivity] |].
  step_frame. reflexivity.
Qed.

Lemma reset_at_most_once_per_cooldown_witness :
  (length (inWindow t0
             (resetTimes
                (logOf (run started
                          [oneHand (openPalm thumbAway tipA) t0;
                           oneHand (openPalm thumbAway tipA) (t0 + 33);
                           oneHand (openPalm thumbAway tipA) (t0 + 66)]))))
   <= 1)%nat
  /\ exists c' evs,
       processFrame
         (withRefs (set_lastResetTime (t0 + 33)) tracking)
         (oneHand (openPalm thumbAway tipA) (t0 + 66))
       = Done c' evs
       /\ evs = []
       /\ lastResetTime (refs c') = (t0 + 33)%Z.
Proof.
  destruct (reset_at_most_once_per_cooldown started
              [oneHand (openPalm thumbAway tipA) t0;
               oneHand (openPalm thumbAway tipA) (t0 + 33);
               oneHand (openPalm thumbAway tipA) (t0 + 66)])
    as (_ & Hwin & _).
  split; [apply Hwin |].
  destruct (reset_at_most_once_per_cooldown
              (withRefs (set_lastResetTime (t0 + 33)) tracking) [])
    as (_ & _ & Hsup & _).
  destruct (Hsup (oneHand (openPalm thumbAway tipA) (t0 + 66))
              (openPalm thumbAway tipA) []
              (mkReading tipA true true true true
                 (hypot (px tipA - px thumbAway) (py tipA - py thumbAway)))
              tipA)
    as (c' & evs & Hstep & _ & Hquiet & Hkeep).
  - reflexivity.
  - apply readHand_openPalm.
  - reflexivity.
  - reflexivity.
  - vm_compute. discriminate.
  - exists c', evs. split; [exact Hstep |]. split; [| exact Hkeep].
    apply Hquiet. right. cbn [tapDist]. unfold CLICK_THRESHOLD.
    apply hypot_ge; unfold tipA, thumbAway; cbn [px py]; lra.
Defined.

(** ** C5: the click latch *)

Lemma clicks_app (l1 l2 : list (Z * GestureEvent)) :
  clicks (l1 ++ l2) = (clicks l1 + clicks l2)%nat.
Proof. unfold clicks. rewrite filter_app, length_app. reflexivity. Qed.

Lemma clicks_stamp (f : Frame) (evs : list GestureEvent) :
  clicks (stamp f evs) = clickCount evs.
Proof.
  unfold clicks, clickCount, stamp.
  induction evs as [| e evs IH]; [reflexivity |].
  cbn [map filter snd]. destruct (isClick e); cbn [length]; rewrite IH;
    reflexivity.
Qed.

Lemma clickCount_app (l1 l2 : list GestureEvent) :
  clickCount (l1 ++ l2) = (clickCount l1 + clickCount l2)%nat.
Proof. unfold clickCount. rewrite filter_app, length_app. reflexivity. Qed.

Lemma decisionTree_no_click (c : Component) (results : Results)
    (rd : Reading) (now : Z) :
  clickCount (eventsOf (decisionTree c results rd now)) = O.
Proof.
  destruct (decisionTree_events c results rd now) as [-> | (e & -> & He)];
    [reflexivity |].
  unfold clickCount. cbn [filter]. destruct e; try discriminate He;
    reflexivity.
Qed.

(** The latch after the click logic, and the clicks it sent. *)
Lemma clickLogic_latch (c : Component) (rd : Reading) (t : Z) :
  (tapDist rd < CLICK_THRESHOLD ->
   isTapped (refs (fst (clickLogic c rd t))) = true
   /\ clickCount (snd (clickLogic c rd t))
      = if isTapped (refs c) then O else 1%nat)
  /\ (CLICK_THRESHOLD <= tapDist rd ->
      clickCount (snd (clickLogic c rd t)) = O
      /\ (CLICK_RELEASE < tapDist rd ->
          isTapped (refs (fst (clickLogic c rd t))) = false)
      /\ (isTapped (refs c) = false ->
          isTapped (refs (fst (clickLogic c rd t))) = false)).
Proof.
  unfold clickLogic. split.
  - intros Hd. rewrite (Rltb_true _ _ Hd). cbn [setActiveGesture refs].
    destruct (isTapped (refs c)) eqn:T; cbn; auto.
  - intros Hd. rewrite (Rltb_false _ _ Hd).
    destruct (Rgtb (tapDist rd) CLICK_RELEASE) eqn:G.
    + cbn. auto.
    + cbn [fst snd]. split; [reflexivity |]. split; [| auto].
      intros Hr. unfold Rgtb in G. rewrite (Rltb_true _ _ Hr) in G.
      discriminate G.
Qed.

Lemma tapOf_inv (f : Frame) (d : R) :
  tapOf f = Some d ->
  exists hand rest rd,
    landmarks f = hand :: rest /\ readHand hand = Some rd /\ tapDist rd = d.
Proof.
  unfold tapOf. destruct (landmarks f) as [| hand rest]; [discriminate |].
  destruct (readHand hand) as [rd |] eqn:E; [| discriminate].
  cbn [option_map]. intros H. injection H as <-.
  exists hand, rest, rd. repeat split; [exact E].
Qed.

(** One frame of a detected hand with all landmarks: the step returns,
    the fingertip is recorded, and the latch and click follow the click
    logic unless the frame is the first after acquisition. *)
Lemma click_frame (c : Component) (f : Frame) (d : R) :
  completeFrame f = true -> tapOf f = Some d ->
  exists c' evs,
    processFrame c f = Done c' evs
    /\ lastLandmark (refs c') <> None
    /\ (lastLandmark (refs c) = None ->
        evs = [] /\ isTapped (refs c') = isTapped (refs c))
    /\ (lastLandmark (refs c) <> None ->
        (d < CLICK_THRESHOLD ->
         isTapped (refs c') = true
         /\ clickCount evs = if isTapped (refs c) then O else 1%nat)
        /\ (CLICK_THRESHOLD <= d ->
            clickCount evs = O
            /\ (CLICK_RELEASE < d -> isTapped (refs c') = false)
            /\ (isTapped (refs c) = false -> isTapped (refs c') = false))).
Proof.
  intros Hc Ht.
  destruct (tapOf_inv f d Ht) as (hand & rest & rd & Hl & E & <-).
  destruct (processFrame_complete c f Hc) as (c' & evs & Hstep).
  exists c', evs. split; [exact Hstep |].
  destruct (lastLandmark (refs c)) as [last |] eqn:L.
  - rewrite (processFrame_tracked c f hand rest rd last Hl E L) in Hstep.
    pose proof (decisionTree_keeps
                  (fst (clickLogic (smoothed c last rd) rd (clickClock f)))
                  (landmarks f) rd (nowClock f)) as (_ & _ & Hk & _).
    pose proof (decisionTree_no_click
                  (fst (clickLogic (smoothed c last rd) rd (clickClock f)))
                  (landmarks f) rd (nowClock f)) as Hn.
    pose proof (clickLogic_latch (smoothed c last rd) rd (clickClock f))
      as [Hlow Hhigh].
    change (isTapped (refs (smoothed c last rd))) with (isTapped (refs c))
      in Hlow, Hhigh.
    destruct (decisionTree _ _ _ _) as [c3 ev2 | c3 ev2]; [| discriminate].
    injection Hstep as <- <-. cbn [stateOf eventsOf] in Hk, Hn.
    cbn [withRefs refs set_lastLandmark lastLandmark isTapped].
    rewrite clickCount_app, Hn, Nat.add_0_r, Hk.
    split; [discriminate |]. split; [discriminate |].
    intros _. split; [exact Hlow | exact Hhigh].
  - rewrite (processFrame_first c f hand rest rd Hl E L) in Hstep.
    injection Hstep as <- <-.
    split; [discriminate |]. split; [| intros H; contradiction].
    intros _. split; reflexivity.
Qed.

Lemma run_app (fs1 fs2 : list Frame) :
  forall c c1 log1,
    run c fs1 = Ran c1 log1 ->
    run c (fs1 ++ fs2)
    = match run c1 fs2 with
      | Ran c2 log2 => Ran c2 (log1 ++ log2)
      | Crashed c2 log2 => Crashed c2 (log1 ++ log2)
      end.
Proof.
  induction fs1 as [| f fs1 IH]; intros c c1 log1 H; cbn [run app] in *.
  - injection H as <- <-. destruct (run c fs2); reflexivity.
  - destruct (processFrame c f) as [c' evs | c' evs]; [| discriminate].
    destruct (run c' fs1) as [c'' log' | c'' log'] eqn:R; [| discriminate].
    injection H as <- <-. rewrite (IH c' c'' log' R).
    destruct (run c'' fs2); rewrite app_assoc; reflexivity.
Qed.

(** Frames that do not engage: no click, a disengaged latch stays so, and
    from a tracked state a frame above the release threshold disengages
    it. *)
Lemma run_notEngaged (fs : list Frame) :
  forall c,
    Forall notEngaged fs ->
    Forall (fun f => completeFrame f = true) fs ->
    exists c' log,
      run c fs = Ran c' log
      /\ clicks log = O
      /\ (isTapped (refs c) = false -> isTapped (refs c') = false)
      /\ (lastLandmark (refs c) <> None -> Exists released fs ->
          isTapped (refs c') = false)
      /\ (fs <> [] \/ lastLandmark (refs c) <> None ->
          lastLandmark (refs c') <> None).
Proof.
  induction fs as [| f fs IH]; intros c Hq Hc.
  { exists c, []. cbn [run]. repeat split; auto.
    - intros _ H. inversion H.
    - intros [H | H]; [contradiction | exact H]. }
  inversion Hq as [| ? ? (d & Ht & Hd) Hq']; subst.
  inversion Hc as [| ? ? Hcf Hc']; subst.
  destruct (click_frame c f d Hcf Ht) as (c1 & evs & Hstep & Htr & Hfirst & Hnext).
  destruct (IH c1 Hq' Hc') as (c2 & log & Hrun & Hclicks & Hoff & Hrel & Htrack).
  exists c2, (stamp f evs ++ log). cbn [run]. rewrite Hstep, Hrun.
  split; [reflexivity |].
  assert (Hcount : clickCount evs = O).
  { destruct (lastLandmark (refs c)) eqn:L.
    - apply Hnext; [discriminate | exact Hd].
    - destruct (Hfirst eq_refl) as [-> _]. reflexivity. }
  assert (Hkeep : isTapped (refs c) = false -> isTapped (refs c1) = false).
  { intros T. destruct (lastLandmark (refs c)) eqn:L.
    - apply Hnext; [discriminate | exact Hd | exact T].
    - destruct (Hfirst eq_refl) as [_ ->]. exact T. }
  split; [rewrite clicks_app, clicks_stamp, Hcount, Hclicks; reflexivity |].
  split; [intros T; apply Hoff, Hkeep, T |].
  split; [| intros _; apply Htrack; right; exact Htr].
  intros Hl Hex. inversion Hex as [? ? (d' & Ht' & Hd') | ? ? Hex']; subst.
  - apply Hoff. rewrite Ht in Ht'. injection Ht' as <-.
    destruct (Hnext Hl) as [_ Hhigh]. destruct (Hhigh Hd) as (_ & Hr & _).
    apply Hr, Hd'.
  - apply Hrel; assumption.
Qed.

(** Frames that all engage, met with the latch engaged: no click. *)
Lemma run_engaged_latched (fs : list Frame) :
  forall c,
    Forall engaged fs ->
    Forall (fun f => completeFrame f = true) fs ->
    lastLandmark (refs c) <> None ->
    isTapped (refs c) = true ->
    exists c' log,
      run c fs = Ran c' log
      /\ clicks log = O
      /\ isTapped (refs c') = true
      /\ lastLandmark (refs c') <> None.
Proof.
  induction fs as [| f fs IH]; intros c Hq Hc Hl T.
  { exists c, []. cbn [run]. auto. }
  inversion Hq as [| ? ? (d & Ht & Hd) Hq']; subst.
  inversion Hc as [| ? ? Hcf Hc']; subst.
  destruct (click_frame c f d Hcf Ht) as (c1 & evs & Hstep & Htr & _ & Hnext).
  destruct (Hnext Hl) as [Hlow _]. destruct (Hlow Hd) as [T1 Hcount].
  rewrite T in Hcount.
  destruct (IH c1 Hq' Hc' Htr T1) as (c2 & log & Hrun & Hclicks & T2 & Hl2).
  exists c2, (stamp f evs ++ log). cbn [run]. rewrite Hstep, Hrun.
  split; [reflexivity |].
  split; [rewrite clicks_app, clicks_stamp, Hcount, Hclicks; reflexivity |].
  auto.
Qed.

(** Frames that all engage, met with the latch disengaged on a tracked
    hand: the first one clicks, the others do not. *)
Lemma run_engaged (f : Frame) (fs : list Frame) (c : Component) :
  Forall engaged (f :: fs) ->
  Forall (fun f => completeFrame f = true) (f :: fs) ->
  lastLandmark (refs c) <> None ->
  isTapped (refs c) = false ->
  exists c' log,
    run c (f :: fs) = Ran c' log
    /\ clicks log = 1%nat
    /\ isTapped (refs c') = true
    /\ lastLandmark (refs c') <> None.
Proof.
  intros Hq Hc Hl T.
  inversion Hq as [| ? ? (d & Ht & Hd) Hq']; subst.
  inversion Hc as [| ? ? Hcf Hc']; subst.
  destruct (click_frame c f d Hcf Ht) as (c1 & evs & Hstep & Htr & _ & Hnext).
  destruct (Hnext Hl) as [Hlow _]. destruct (Hlow Hd) as [T1 Hcount].
  rewrite T in Hcount.
  destruct (run_engaged_latched fs c1 Hq' Hc' Htr T1)
    as (c2 & log & Hrun & Hclicks & T2 & Hl2).
  exists c2, (stamp f evs ++ log). cbn [run]. rewrite Hstep, Hrun.
  split; [reflexivity |].
  split; [rewrite clicks_app, clicks_stamp, Hcount, Hclicks; reflexivity |].
  auto.
Qed.

(** C5 (as the code has it): take the frames of a detected hand (all
    landmarks present) in which the thumb-index distance stays at or above
    0.07, then goes below it, then stays at or above it again and at some
    frame exceeds 0.10.  Started with the latch disengaged, the loop runs
    through all of them, sends exactly one [Click], and ends with the
    latch disengaged. *)
Theorem one_click_per_pinch :
  forall (c : Component) (before during after : list Frame),
    isTapped (refs c) = false ->
    before <> [] ->
    during <> [] ->
    Forall notEngaged before ->
    Forall engaged during ->
    Forall notEngaged after ->
    Exists released after ->
    Forall (fun f => completeFrame f = true) (before ++ during ++ after) ->
    exists c' log,
      run c (before ++ during ++ after) = Ran c' log
      /\ clicks log = 1%nat
      /\ isTapped (refs c') = false.
Proof.
  intros c before during after T Hb Hd Qb Qd Qa Hrel Hc.
  apply Forall_app in Hc as [Cb Hc]. apply Forall_app in Hc as [Cd Ca].
  destruct (run_notEngaged before c Qb Cb)
    as (c1 & log1 & R1 & K1 & T1 & _ & L1).
  specialize (T1 T). specialize (L1 (or_introl Hb)).
  destruct during as [| f during]; [contradiction |].
  destruct (run_engaged f during c1 Qd Cd L1 T1)
    as (c2 & log2 & R2 & K2 & T2 & L2).
  destruct (run_notEngaged after c2 Qa Ca)
    as (c3 & log3 & R3 & K3 & _ & T3 & _).
  exists c3, (log1 ++ log2 ++ log3).
  rewrite (run_app before _ c c1 log1 R1).
  rewrite (run_app (f :: during) after c1 c2 log2 R2), R3.
  split; [reflexivity |].
  split; [rewrite !clicks_app, K1, K2, K3; reflexivity |].
  apply T3; assumption.
Qed.

Lemma tapOf_pointing (thumbTip : Point) (t : Z) :
  tapOf (oneHand (pointing thumbTip tipA) t)
  = Some (hypot (px tipA - px thumbTip) (py tipA - py thumbTip)).
Proof.
  unfold tapOf, oneHand. cbn [landmarks]. rewrite readHand_pointing.
  reflexivity.
Qed.

Lemma pointing_away_notEngaged (t : Z) :
  notEngaged (oneHand (pointing thumbAway tipA) t).
Proof.
  eexists. split; [apply tapOf_pointing |].
  unfold CLICK_THRESHOLD.
  apply hypot_ge; unfold tipA, thumbAway; cbn [px py]; lra.
Defined.

Lemma pointing_away_released (t : Z) :
  released (oneHand (pointing thumbAway tipA) t).
Proof.
  eexists. split; [apply tapOf_pointing |].
  unfold CLICK_RELEASE.
  apply hypot_gt; unfold tipA, thumbAway; cbn [px py]; lra.
Defined.

Lemma pointing_pinch_engaged (t : Z) :
  engaged (oneHand (pointing thumbPinch tipA) t).
Proof.
  eexists. split; [apply tapOf_pointing |].
  unfold CLICK_THRESHOLD.
  apply hypot_lt; unfold tipA, thumbPinch; cbn [px py]; lra.
Defined.

Lemma one_click_per_pinch_witness :
  exists c' log,
    run started
      ([oneHand (pointing thumbAway tipA) t0]
       ++ [oneHand (pointing thumbPinch tipA) (t0 + 33);
           oneHand (pointing thumbPinch tipA) (t0 + 66)]
       ++ [oneHand (pointing thumbAway tipA) (t0 + 99)])
    = Ran c' log
    /\ clicks log = 1%nat
    /\ isTapped (refs c') = false.
Proof.
  apply (one_click_per_pinch started).
  - reflexivity.
  - discriminate.
  - discriminate.
  - apply Forall_cons; [apply pointing_away_notEngaged | apply Forall_nil].
  - apply Forall_cons; [apply pointing_pinch_engaged |].
    apply Forall_cons; [apply pointing_pinch_engaged | apply Forall_nil].
  - apply Forall_cons; [apply pointing_away_notEngaged | apply Forall_nil].
  - apply Exists_cons_hd. apply pointing_away_released.
  - repeat (apply Forall_cons; [reflexivity |]). apply Forall_nil.
Defined.

Lemma stale_latch_steps :
  exists c1 c2 c3 c4 c5 c6,
    processFrame started (oneHand (pointing thumbAway tipA) t0) = Done c1 []
    /\ processFrame c1 (oneHand (pointing thumbPinch tipA) (t0 + 33))
       = Done c2 [Click 0.40 0.35]
    /\ processFrame c2 (noHand (t0 + 66)) = Done c3 []
    /\ isTapped (refs c3) = true
    /\ processFrame c3 (oneHand (pointing thumbAway tipA) (t0 + 99))
       = Done c4 []
    /\ processFrame c4 (oneHand (pointing thumbPinch tipA) (t0 + 132))
       = Done c5 []
    /\ processFrame c5 (oneHand (pointing thumbAway tipA) (t0 + 165))
       = Done c6 [].
Proof.
  do 6 eexists.
  split; [step_frame; reflexivity |].
  split; [step_frame; reflexivity |].
  split; [step_frame; reflexivity |].
  split; [reflexivity |].
  split; [step_frame; reflexivity |].
  split; [step_frame; reflexivity |].
  step_frame; reflexivity.
Qed.

(** C5 refuted: the hand is lost during a pinch, which leaves the latch
    engaged; it comes back open, pinches once and opens again.  Over
    these three frames of a detected hand the distance goes below 0.07
    once and back above 0.10, and no [Click] is sent. *)
Lemma stale_latch_swallows_click :
  exists c3 log3 c6 log6,
    run started
      [oneHand (pointing thumbAway tipA) t0;
       oneHand (pointing thumbPinch tipA) (t0 + 33);
       noHand (t0 + 66)]
    = Ran c3 log3
    /\ isTapped (refs c3) = true
    /\ notEngaged (oneHand (pointing thumbAway tipA) (t0 + 99))
    /\ engaged (oneHand (pointing thumbPinch tipA) (t0 + 132))
    /\ released (oneHand (pointing thumbAway tipA) (t0 + 165))
    /\ run c3
         ([oneHand (pointing thumbAway tipA) (t0 + 99)]
          ++ [oneHand (pointing thumbPinch tipA) (t0 + 132)]
          ++ [oneHand (pointing thumbAway tipA) (t0 + 165)])
       = Ran c6 log6
    /\ clicks log6 = O.
Proof.
  destruct stale_latch_steps
    as (c1 & c2 & c3 & c4 & c5 & c6 & H1 & H2 & H3 & T & H4 & H5 & H6).
  exists c3. eexists. exists c6, [].
  split; [cbn [run]; rewrite H1, H2, H3; reflexivity |].
  split; [exact T |].
  split; [apply pointing_away_notEngaged |].
  split; [apply pointing_pinch_engaged |].
  split; [apply pointing_away_released |].
  split; [cbn [app run]; rewrite H4, H5, H6; reflexivity |].
  reflexivity.
Qed.

(** * Further properties of the frame step *)

(** ** The click lockout *)

(** X1: on a tracked frame that does not show the open palm, taken less
    than 400 ms after the recorded click (and with its own two clock
    readings less than 400 ms apart), the step returns without any
    [Zoom], [Pan] or [Rotate] and without touching [lastPinchDist]; this
    holds with two hands as well, whose landmarks are then not read. *)
Theorem click_lockout_suppresses_movement :
  forall (c : Component) (f : Frame) (hand : Hand) (rest : Results)
         (rd : Reading) (last : Point),
    landmarks f = hand :: rest ->
    readHand hand = Some rd ->
    lastLandmark (refs c) = Some last ->
    isPalm rd = false ->
    (nowClock f - lastClickTime (refs c) < 400)%Z ->
    (nowClock f - clickClock f < 400)%Z ->
    exists c' evs,
      processFrame c f = Done c' evs
      /\ (forall e, In e evs -> isMovement e = false)
      /\ lastPinchDist (refs c') = lastPinchDist (refs c).
Proof.
  intros c f hand rest rd last Hl E L Hpalm Hrecent Hclock.
  rewrite (processFrame_tracked c f hand rest rd last Hl E L).
  assert (Hlock : clickLocked
                    (fst (clickLogic (smoothed c last rd) rd (clickClock f)))
                    (nowClock f) = true).
  { unfold clickLocked. apply Z.ltb_lt.
    destruct (clickLogic_events (smoothed c last rd) rd (clickClock f))
      as [[_ ->] | [_ ->]]; [exact Hrecent | exact Hclock]. }
  unfold decisionTree. rewrite Hpalm, Hlock.
  eexists. eexists. split; [reflexivity |].
  rewrite app_nil_r. split.
  - intros e He.
    destruct (clickLogic_events (smoothed c last rd) rd (clickClock f))
      as [[H _] | [H _]]; rewrite H in He; cbn [In] in He.
    + destruct He.
    + destruct He as [<- | []]. reflexivity.
  - cbn [withRefs refs set_lastLandmark lastPinchDist].
    destruct (clickLogic_keeps (smoothed c last rd) rd (clickClock f))
      as (_ & _ & ->). reflexivity.
Qed.

Lemma click_lockout_suppresses_movement_witness :
  exists c' evs,
    processFrame
      (withRefs (set_lastClickTime (t0 - 200)) tracking)
      (mkFrame [pointing thumbAway tipB; firstn 5 (pointing thumbAway tipA)]
               t0 t0)
    = Done c' evs
    /\ (forall e, In e evs -> isMovement e = false)
    /\ lastPinchDist (refs c')
       = lastPinchDist (refs (withRefs (set_lastClickTime (t0 - 200))
                                tracking)).
Proof.
  apply (click_lockout_suppresses_movement
           (withRefs (set_lastClickTime (t0 - 200)) tracking)
           (mkFrame [pointing thumbAway tipB;
                     firstn 5 (pointing thumbAway tipA)] t0 t0)
           (pointing thumbAway tipB) [firstn 5 (pointing thumbAway tipA)]
           (mkReading tipB true false false false
              (hypot (px tipB - px thumbAway) (py tipB - py thumbAway)))
           tipA).
  - reflexivity.
  - unfold readHand, isExtended. unfold_samples. reduce_cells.
    rewrite !extended_squares. Rcompare. reflexivity.
  - reflexivity.
  - reflexivity.
  - reflexivity.
  - reflexivity.
Defined.

(** ** Which frames can pan or rotate *)

Lemma pinchZoom_no_move (c : Component) (results : Results) (rd : Reading) :
  forall e, In e (eventsOf (pinchZoom c results rd)) -> isMove e = false.
Proof.
  intros e He.
  destruct (pinchZoom_events c results rd) as [H | [delta H]];
    rewrite H in He; cbn [In] in He.
  - destruct He.
  - destruct He as [<- | []]. reflexivity.
Qed.

Lemma clickLogic_no_move (c : Component) (rd : Reading) (t : Z) :
  forall e, In e (snd (clickLogic c rd t)) -> isMove e = false.
Proof.
  intros e He.
  destruct (clickLogic_events c rd t) as [[H _] | [H _]];
    rewrite H in He; cbn [In] in He.
  - destruct He.
  - destruct He as [<- | []]. reflexivity.
Qed.

Lemma decisionTree_shadowed (c : Component) (results : Results)
    (rd : Reading) (now : Z) :
  length results = 2%nat \/ indexOut rd = false \/ isPalm rd = true ->
  forall e, In e (eventsOf (decisionTree c results rd now)) ->
            isMove e = false.
Proof.
  intros H e. unfold decisionTree.
  destruct (isPalm rd) eqn:Hp.
  { destruct (now - lastResetTime (refs c) >? 2000)%Z; cbn [eventsOf In].
    - intros [<- | []]. reflexivity.
    - intros []. }
  destruct (clickLocked c now); [intros [] |].
  destruct (length results =? 2)%nat eqn:Hn; [apply pinchZoom_no_move |].
  apply Nat.eqb_neq in Hn.
  destruct H as [H | [H | H]]; [contradiction | | discriminate].
  rewrite H, andb_false_r. cbn [andb eventsOf In]. intros [].
Qed.

(** X2: a readable frame sends neither [Pan] nor [Rotate] when exactly two
    hands are detected, when the index finger of the first hand is not
    extended, or when the first hand shows the open palm. *)
Theorem pan_rotate_need_one_hand_and_index :
  forall (c : Component) (f : Frame) (hand : Hand) (rest : Results)
         (rd : Reading),
    landmarks f = hand :: rest ->
    readHand hand = Some rd ->
    length (landmarks f) = 2%nat \/ indexOut rd = false \/ isPalm rd = true ->
    forall e, In e (eventsOf (processFrame c f)) -> isMove e = false.
Proof.
  intros c f hand rest rd Hl E H e.
  destruct (lastLandmark (refs c)) as [last |] eqn:L.
  - rewrite (processFrame_events c f hand rest rd last Hl E L), in_app_iff.
    intros [He | He].
    + exact (clickLogic_no_move _ _ _ e He).
    + exact (decisionTree_shadowed _ _ _ _ H e He).
  - rewrite (processFrame_first c f hand rest rd Hl E L). intros [].
Qed.

Lemma pan_rotate_need_one_hand_and_index_witness :
  Forall (fun e => isMove e = false)
    (eventsOf
       (processFrame tracking
          (mkFrame [pointing thumbAway tipB; pointing thumbAway tipA]
                   t0 t0))).
Proof.
  apply Forall_forall.
  apply (pan_rotate_need_one_hand_and_index tracking
           (mkFrame [pointing thumbAway tipB; pointing thumbAway tipA] t0 t0)
           (pointing thumbAway tipB) [pointing thumbAway tipA]
           (mkReading tipB true false false false
              (hypot (px tipB - px thumbAway) (py tipB - py thumbAway)))).
  - reflexivity.
  - unfold readHand, isExtended. unfold_samples. reduce_cells.
    rewrite !extended_squares. Rcompare. reflexivity.
  - left. reflexivity.
Defined.

(** ** Who writes [lastPinchDist] *)

Lemma decisionTree_keeps_pinch (c : Component) (results : Results)
    (rd : Reading) (now : Z) :
  negb (isPalm rd) && negb (clickLocked c now) && (length results =? 2)%nat
  = false ->
  exists c',
    decisionTree c results rd now
    = Done c' (eventsOf (decisionTree c results rd now))
    /\ lastPinchDist (refs c') = lastPinchDist (refs c)
    /\ forall z, ~ In (Zoom z) (eventsOf (decisionTree c results rd now)).
Proof.
  intros H. unfold decisionTree.
  destruct (isPalm rd).
  { destruct (now - lastResetTime (refs c) >? 2000)%Z; eexists;
      (split; [reflexivity |]); (split; [reflexivity |]);
      intros z; cbn [eventsOf In]; [intros [D | []]; discriminate D | tauto]. }
  destruct (clickLocked c now).
  { eexists. split; [reflexivity |]. split; [reflexivity |].
    intros z []. }
  cbn [negb andb] in H. rewrite H.
  destruct (middleOut rd && indexOut rd && negb (ringOut rd)).
  { eexists. split; [reflexivity |]. split; [reflexivity |].
    intros z [D | []]. discriminate D. }
  destruct (indexOut rd && negb (middleOut rd)).
  { eexists. split; [reflexivity |]. split; [reflexivity |].
    intros z [D | []]. discriminate D. }
  eexists. split; [reflexivity |]. split; [reflexivity |]. intros z [].
Qed.

(** X3: a tracked frame that does not take the two-hand branch (it shows
    the open palm, or falls in the click lockout, or has one hand or more
    than two) returns, sends no [Zoom] and leaves [lastPinchDist] as it
    was: a distance measured before the second hand went away is still
    there when it comes back. *)
Theorem lastPinchDist_kept_outside_zoom_branch :
  forall (c : Component) (f : Frame) (hand : Hand) (rest : Results)
         (rd : Reading) (last : Point),
    landmarks f = hand :: rest ->
    readHand hand = Some rd ->
    lastLandmark (refs c) = Some last ->
    reachesPinchZoom c f last rd = false ->
    exists c' evs,
      processFrame c f = Done c' evs
      /\ (forall z, ~ In (Zoom z) evs)
      /\ lastPinchDist (refs c') = lastPinchDist (refs c).
Proof.
  intros c f hand rest rd last Hl E L Hreach.
  rewrite (processFrame_tracked c f hand rest rd last Hl E L).
  destruct (decisionTree_keeps_pinch
              (fst (clickLogic (smoothed c last rd) rd (clickClock f)))
              (landmarks f) rd (nowClock f) Hreach)
    as (c3 & -> & Hkeep & Hno).
  eexists. eexists. split; [reflexivity |]. split.
  - intros z Hin. apply in_app_iff in Hin as [Hin | Hin].
    + exact (clickLogic_no_zoom _ _ _ _ Hin).
    + exact (Hno z Hin).
  - cbn [withRefs refs set_lastLandmark lastPinchDist]. rewrite Hkeep.
    destruct (clickLogic_keeps (smoothed c last rd) rd (clickClock f))
      as (_ & _ & ->). reflexivity.
Qed.

Lemma lastPinchDist_kept_outside_zoom_branch_witness :
  exists c' evs,
    processFrame (withRefs (set_lastPinchDist (Some 0.08)) tracking)
      (oneHand (pointing thumbAway tipB) (t0 + 33))
    = Done c' evs
    /\ (forall z, ~ In (Zoom z) evs)
    /\ lastPinchDist (refs c') = Some 0.08.
Proof.
  apply (lastPinchDist_kept_outside_zoom_branch
           (withRefs (set_lastPinchDist (Some 0.08)) tracking)
           (oneHand (pointing thumbAway tipB) (t0 + 33))
           (pointing thumbAway tipB) []
           (mkReading tipB true false false false
              (hypot (px tipB - px thumbAway) (py tipB - py thumbAway)))
           tipA).
  - reflexivity.
  - unfold readHand, isExtended. unfold_samples. reduce_cells.
    rewrite !extended_squares. Rcompare. reflexivity.
  - reflexivity.
  - unfold reachesPinchZoom. cbn [oneHand landmarks length Nat.eqb].
    apply andb_false_r.
Defined.

(** X4: a tracked frame that takes the two-hand branch with no previous
    pinch distance sends no [Zoom]; it only records the distance between
    the two index tips, so zooming starts with the second such frame. *)
Theorem first_two_hand_frame_only_measures :
  forall (c : Component) (f : Frame) (hand hand2 : Hand) (rd : Reading)
         (last tip2 : Point),
    landmarks f = [hand; hand2] ->
    readHand hand = Some rd ->
    nth_error hand2 8 = Some tip2 ->
    lastLandmark (refs c) = Some last ->
    lastPinchDist (refs c) = None ->
    reachesPinchZoom c f last rd = true ->
    exists c' evs,
      processFrame c f = Done c' evs
      /\ (forall e, In e evs -> isMovement e = false)
      /\ lastPinchDist (refs c')
         = Some (hypot (px (indexTip rd) - px tip2)
                       (py (indexTip rd) - py tip2)).
Proof.
  intros c f hand hand2 rd last tip2 Hl E H2 L P Hreach.
  unfold reachesPinchZoom in Hreach.
  apply andb_prop in Hreach as [Hreach Hn].
  apply andb_prop in Hreach as [Hpalm Hlock].
  apply negb_true_iff in Hpalm, Hlock.
  rewrite (processFrame_tracked c f hand [hand2] rd last Hl E L).
  destruct (clickLogic_keeps (smoothed c last rd) rd (clickClock f))
    as (_ & _ & Hp).
  unfold decisionTree. rewrite Hpalm, Hlock, Hn.
  unfold pinchZoom. rewrite Hl. cbn [nth]. rewrite H2.
  cbn [setActiveGesture refs]. rewrite Hp.
  change (lastPinchDist (refs (smoothed c last rd)))
    with (lastPinchDist (refs c)).
  rewrite P. eexists. eexists. split; [reflexivity |].
  rewrite app_nil_r. split; [| reflexivity].
  intros e He.
  destruct (clickLogic_events (smoothed c last rd) rd (clickClock f))
    as [[H _] | [H _]]; rewrite H in He; cbn [In] in He.
  - destruct He.
  - destruct He as [<- | []]. reflexivity.
Qed.

Lemma first_two_hand_frame_only_measures_witness :
  exists c' evs,
    processFrame tracking
      (mkFrame [pointing thumbAway tipA; pointing thumbAway tipB]
               (t0 + 33) (t0 + 33))
    = Done c' evs
    /\ (forall e, In e evs -> isMovement e = false)
    /\ lastPinchDist (refs c')
       = Some (hypot (px tipA - px tipB) (py tipA - py tipB)).
Proof.
  apply (first_two_hand_frame_only_measures tracking
           (mkFrame [pointing thumbAway tipA; pointing thumbAway tipB]
                    (t0 + 33) (t0 + 33))
           (pointing thumbAway tipA) (pointing thumbAway tipB)
           (mkReading tipA true false false false
              (hypot (px tipA - px thumbAway) (py tipA - py thumbAway)))
           tipA tipB).
  - reflexivity.
  - apply readHand_pointing.
  - reflexivity.
  - reflexivity.
  - reflexivity.
  - unfold reachesPinchZoom, smoothed. step_frame. reflexivity.
Defined.

(** ** Loss of tracking, label and capture *)

(** X5: two frames with no hand in a row leave the component exactly as
    one does, and neither sends an event. *)
Theorem tracking_loss_is_idempotent :
  forall (c : Component) (f1 f2 : Frame),
    landmarks f1 = [] ->
    landmarks f2 = [] ->
    exists c1,
      processFrame c f1 = Done c1 []
      /\ processFrame c1 f2 = Done c1 [].
Proof.
  intros c f1 f2 H1 H2. eexists. split.
  - apply (processFrame_lost c f1 H1).
  - rewrite (processFrame_lost _ f2 H2). reflexivity.
Qed.

Lemma tracking_loss_is_idempotent_witness :
  exists c1,
    processFrame tracking (noHand t0) = Done c1 []
    /\ processFrame c1 (noHand (t0 + 33)) = Done c1 [].
Proof.
  apply (tracking_loss_is_idempotent tracking (noHand t0) (noHand (t0 + 33)));
    reflexivity.
Defined.

Lemma clickLogic_label (c : Component) (rd : Reading) (t : Z) :
  activeGesture c <> None ->
  activeGesture (fst (clickLogic c rd t)) <> None.
Proof.
  intros H. unfold clickLogic.
  destruct (Rltb (tapDist rd) CLICK_THRESHOLD).
  - cbn [setActiveGesture refs]. destruct (isTapped (refs c)); cbn;
      discriminate.
  - destruct (Rgtb (tapDist rd) CLICK_RELEASE); exact H.
Qed.

Lemma decisionTree_label (c : Component) (results : Results) (rd : Reading)
    (now : Z) :
  activeGesture c <> None ->
  activeGesture (stateOf (decisionTree c results rd now)) <> None.
Proof.
  intros H. unfold decisionTree.
  destruct (isPalm rd).
  { destruct (now - lastResetTime (refs c) >? 2000)%Z; cbn;
      [discriminate | exact H]. }
  destruct (clickLocked c now); [exact H |].
  destruct (length results =? 2)%nat.
  { unfold pinchZoom. destruct (nth_error (nth 1 results []) 8); cbn;
      discriminate. }
  destruct (middleOut rd && indexOut rd && negb (ringOut rd));
    [cbn; discriminate |].
  destruct (indexOut rd && negb (middleOut rd)); [cbn; discriminate |].
  exact H.
Qed.

(** X6: the gesture label is cleared by a frame with no hand and by
    nothing else: a frame with a hand keeps a label on display (possibly
    another one) even when it sends no event or throws, and the capture
    toggle does not touch the label. *)
Theorem label_cleared_only_by_lost_hand :
  forall (c : Component) (f : Frame) (media : MediaResult),
    (landmarks f = [] -> activeGesture (stateOf (processFrame c f)) = None)
    /\ (landmarks f <> [] -> activeGesture c <> None ->
        activeGesture (stateOf (processFrame c f)) <> None)
    /\ activeGesture (fst (toggleCamera c media)) = activeGesture c.
Proof.
  intros c f media. split; [| split].
  - intros Hl. rewrite (processFrame_lost c f Hl). reflexivity.
  - intros Hl Hlabel.
    destruct (processFrame_cases c f)
      as [H | [(hand & rest & H & E) | [(hand & rest & rd & H & E & L)
                                        | (hand & rest & rd & last & H & E & L)]]].
    + contradiction.
    + rewrite (processFrame_unreadable c f hand rest H E). exact Hlabel.
    + rewrite (processFrame_first c f hand rest rd H E L). exact Hlabel.
    + rewrite (processFrame_tracked c f hand rest rd last H E L).
      pose proof (decisionTree_label
                    (fst (clickLogic (smoothed c last rd) rd (clickClock f)))
                    (landmarks f) rd (nowClock f)
                    (clickLogic_label (smoothed c last rd) rd (clickClock f)
                       Hlabel)) as Hd.
      destruct (decisionTree _ _ _ _); exact Hd.
  - unfold toggleCamera. destruct (handLandmarker c); [| reflexivity].
    destruct (cameraActive c); [reflexivity |]. destruct media; reflexivity.
Qed.

Lemma label_cleared_only_by_lost_hand_witness :
  activeGesture
    (stateOf (processFrame (setActiveGesture (Some ROTATING) tracking)
                (oneHand (sampleHand thumbAway (mkPoint 0.40 0.55)
                            (mkPoint 0.50 0.50) (mkPoint 0.60 0.55)
                            (mkPoint 0.70 0.65)) t0)))
  <> None.
Proof.
  apply (proj1 (proj2 (label_cleared_only_by_lost_hand
                         (setActiveGesture (Some ROTATING) tracking)
                         (oneHand (sampleHand thumbAway (mkPoint 0.40 0.55)
                                     (mkPoint 0.50 0.50) (mkPoint 0.60 0.55)
                                     (mkPoint 0.70 0.65)) t0)
                         StreamGranted))).
  - discriminate.
  - discriminate.
Defined.

Lemma clickLogic_capture (c : Component) (rd : Reading) (t : Z) :
  handLandmarker (fst (clickLogic c rd t)) = handLandmarker c
  /\ cameraActive (fst (clickLogic c rd t)) = cameraActive c.
Proof.
  unfold clickLogic.
  destruct (Rltb (tapDist rd) CLICK_THRESHOLD).
  - cbn [setActiveGesture refs]. destruct (isTapped (refs c)); split;
      reflexivity.
  - destruct (Rgtb (tapDist rd) CLICK_RELEASE); split; reflexivity.
Qed.

Lemma decisionTree_capture (c : Component) (results : Results)
    (rd : Reading) (now : Z) :
  handLandmarker (stateOf (decisionTree c results rd now)) = handLandmarker c
  /\ cameraActive (stateOf (decisionTree c results rd now)) = cameraActive c.
Proof.
  unfold decisionTree.
  destruct (isPalm rd).
  { destruct (now - lastResetTime (refs c) >? 2000)%Z; split; reflexivity. }
  destruct (clickLocked c now); [split; reflexivity |].
  destruct (length results =? 2)%nat.
  { unfold pinchZoom. destruct (nth_error (nth 1 results []) 8);
      split; reflexivity. }
  destruct (middleOut rd && indexOut rd && negb (ringOut rd));
    [split; reflexivity |].
  destruct (indexOut rd && negb (middleOut rd)); split; reflexivity.
Qed.

Lemma processFrame_keeps_capture (c : Component) (f : Frame) :
  handLandmarker (stateOf (processFrame c f)) = handLandmarker c
  /\ cameraActive (stateOf (processFrame c f)) = cameraActive c.
Proof.
  destruct (processFrame_cases c f)
    as [H | [(hand & rest & H & E) | [(hand & rest & rd & H & E & L)
                                      | (hand & rest & rd & last & H & E & L)]]].
  - rewrite (processFrame_lost c f H). split; reflexivity.
  - rewrite (processFrame_unreadable c f hand rest H E). split; reflexivity.
  - rewrite (processFrame_first c f hand rest rd H E L). split; reflexivity.
  - rewrite (processFrame_tracked c f hand rest rd last H E L).
    destruct (decisionTree_capture
                (fst (clickLogic (smoothed c last rd) rd (clickClock f)))
                (landmarks f) rd (nowClock f)) as [H1 H2].
    destruct (clickLogic_capture (smoothed c last rd) rd (clickClock f))
      as [H3 H4].
    destruct (decisionTree _ _ _ _); cbn [stateOf] in *;
      cbn [withRefs handLandmarker cameraActive];
      rewrite ?H1, ?H2, ?H3, ?H4; split; reflexivity.
Qed.

(** X7: the capture is never active without a loaded landmarker: the
    property holds for the component as mounted and is kept by every
    toggle, whatever the camera answers, and by every frame step, also
    one that throws. *)
Theorem capture_never_active_without_landmarker :
  captureReady initComponent
  /\ forall c : Component,
       captureReady c ->
       (forall media, captureReady (fst (toggleCamera c media)))
       /\ (forall f, captureReady (stateOf (processFrame c f)))
       /\ captureReady (setHandLandmarker true c).
Proof.
  split; [intros H; discriminate H |].
  intros c Hc. split; [| split].
  - intros media. unfold captureReady, toggleCamera in *.
    destruct (handLandmarker c) eqn:Hl; cbn [negb fst].
    + destruct (cameraActive c); [cbn; auto |].
      destruct media; cbn; auto.
    + rewrite Hl. exact Hc.
  - intros f. unfold captureReady.
    destruct (processFrame_keeps_capture c f) as [-> ->]. exact Hc.
  - intros _. reflexivity.
Qed.

Lemma capture_never_active_without_landmarker_witness :
  captureReady (fst (toggleCamera initComponent StreamGranted))
  /\ cameraActive (fst (toggleCamera initComponent StreamGranted)) = false.
Proof.
  split; [| reflexivity].
  apply (proj2 capture_never_active_without_landmarker initComponent).
  apply (proj1 capture_never_active_without_landmarker).
Defined.

(** X8: stopping an active capture and starting it again, with the
    camera granted, ends with [cameraActive] set again; [onGesture(null)]
    is called exactly once, by the stop, and the interpreter cells and the
    gesture label are the same as before. *)
Theorem stop_then_start_restores_capture :
  forall (c : Component) (media : MediaResult),
    handLandmarker c = true ->
    cameraActive c = true ->
    cameraActive (fst (toggleCamera c media)) = false
    /\ cameraActive (fst (toggles c [media; StreamGranted])) = true
    /\ snd (toggles c [media; StreamGranted]) = [NullGesture]
    /\ refs (fst (toggles c [media; StreamGranted])) = refs c
    /\ activeGesture (fst (toggles c [media; StreamGranted]))
       = activeGesture c.
Proof.
  intros c media Hl Ha. cbn [toggles]. unfold toggleCamera.
  rewrite Hl, Ha. cbn. rewrite Hl. cbn. auto.
Qed.

Lemma stop_then_start_restores_capture_witness :
  cameraActive (fst (toggles started [StreamDenied; StreamGranted])) = true
  /\ snd (toggles started [StreamDenied; StreamGranted]) = [NullGesture].
Proof.
  destruct (stop_then_start_restores_capture started StreamDenied)
    as (_ & H1 & H2 & _).
  - reflexivity.
  - reflexivity.
  - split; [exact H1 | exact H2].
Defined.

(** ** Normalized coordinates bound the motion *)

Lemma readHand_indexTip (hand : Hand) (rd : Reading) :
  readHand hand = Some rd -> nth_error hand 8 = Some (indexTip rd).
Proof.
  unfold readHand.
  destruct (isExtended hand 8 7); cbn [bind]; [| discriminate].
  destruct (isExtended hand 12 11); cbn [bind]; [| discriminate].
  destruct (isExtended hand 16 15); cbn [bind]; [| discriminate].
  destruct (isExtended hand 20 19); cbn [bind]; [| discriminate].
  destruct (nth_error hand 8) as [tip |]; cbn [bind]; [| discriminate].
  destruct (nth_error hand 4) as [thumb |]; cbn [bind]; [| discriminate].
  intros H. injection H as <-. reflexivity.
Qed.

Lemma Rabs_bound (x b : R) : Rabs x <= b <-> - b <= x <= b.
Proof. unfold Rabs. destruct (Rcase_abs x); lra. Qed.

Lemma deadzone_abs (d : R) : Rabs (deadzone d) <= Rabs d.
Proof.
  unfold deadzone. destruct (Rltb (Rabs d) DEADZONE); [| lra].
  rewrite Rabs_R0. apply Rabs_pos.
Qed.

Lemma smooth_bounded (d s : R) :
  Rabs d <= 1 -> Rabs s <= 1 -> Rabs (smooth d s) <= 1.
Proof.
  intros Hd Hs. apply Rabs_bound in Hd, Hs. apply Rabs_bound.
  unfold smooth, ALPHA. lra.
Qed.

Lemma smoothing_bounded (last tip : Point) (r : Refs) :
  inUnitSquare last -> inUnitSquare tip ->
  Rabs (px (smoothedPos r)) <= 1 -> Rabs (py (smoothedPos r)) <= 1 ->
  Rabs (px (smoothedPos (smoothing last tip r))) <= 1
  /\ Rabs (py (smoothedPos (smoothing last tip r))) <= 1.
Proof.
  intros [Hlx Hly] [Htx Hty] Hx Hy.
  unfold smoothing. cbn [set_smoothedPos smoothedPos px py].
  split; apply smooth_bounded; try assumption;
    (eapply Rle_trans; [apply deadzone_abs |]); apply Rabs_bound; lra.
Qed.

Lemma decisionTree_payload (c : Component) (results : Results)
    (rd : Reading) (now : Z) :
  Rabs (px (smoothedPos (refs c))) <= 1 ->
  Rabs (py (smoothedPos (refs c))) <= 1 ->
  Forall payloadBounded (eventsOf (decisionTree c results rd now)).
Proof.
  intros Hx Hy. apply Rabs_bound in Hx, Hy. unfold decisionTree.
  destruct (isPalm rd).
  { destruct (now - lastResetTime (refs c) >? 2000)%Z; cbn [eventsOf];
      repeat constructor. }
  destruct (clickLocked c now); [constructor |].
  destruct (length results =? 2)%nat.
  { destruct (pinchZoom_events c results rd) as [-> | [delta ->]];
      repeat constructor. }
  destruct (middleOut rd && indexOut rd && negb (ringOut rd)).
  { cbn [eventsOf]. constructor; [| constructor].
    cbn [payloadBounded]. unfold GAIN. split; apply Rabs_bound; lra. }
  destruct (indexOut rd && negb (middleOut rd)); [| constructor].
  cbn [eventsOf]. constructor; [| constructor].
  cbn [payloadBounded]. unfold GAIN. split; apply Rabs_bound; lra.
Qed.

Lemma clickLogic_payload (c : Component) (rd : Reading) (t : Z) :
  Forall payloadBounded (snd (clickLogic c rd t)).
Proof.
  destruct (clickLogic_events c rd t) as [[-> _] | [-> _]];
    repeat constructor.
Qed.

Lemma processFrame_bounded (c : Component) (f : Frame) :
  boundedRefs (refs c) -> tipInSquare f ->
  boundedRefs (refs (stateOf (processFrame c f)))
  /\ Forall payloadBounded (eventsOf (processFrame c f)).
Proof.
  intros (Bx & By & Bl) Hsq.
  destruct (processFrame_cases c f)
    as [H | [(hand & rest & H & E) | [(hand & rest & rd & H & E & L)
                                      | (hand & rest & rd & last & H & E & L)]]].
  - rewrite (processFrame_lost c f H). split; [| constructor].
    split; [exact Bx |]. split; [exact By |]. intros p Hp. discriminate Hp.
  - rewrite (processFrame_unreadable c f hand rest H E).
    split; [| constructor]. exact (conj Bx (conj By Bl)).
  - rewrite (processFrame_first c f hand rest rd H E L).
    split; [| constructor]. split; [exact Bx |]. split; [exact By |].
    intros p Hp. injection Hp as <-.
    exact (Hsq hand rest (indexTip rd) H (readHand_indexTip hand rd E)).
  - pose proof (Hsq hand rest (indexTip rd) H (readHand_indexTip hand rd E))
      as Htip.
    destruct (smoothing_bounded last (indexTip rd) (refs c) (Bl last L) Htip
                Bx By) as [Sx Sy].
    destruct (clickLogic_keeps (smoothed c last rd) rd (clickClock f))
      as (Kl & Ks & _).
    change (smoothedPos (refs (smoothed c last rd)))
      with (smoothedPos (smoothing last (indexTip rd) (refs c))) in Ks.
    change (lastLandmark (refs (smoothed c last rd)))
      with (lastLandmark (refs c)) in Kl.
    destruct (decisionTree_keeps
                (fst (clickLogic (smoothed c last rd) rd (clickClock f)))
                (landmarks f) rd (nowClock f)) as (Dl & Ds & _).
    pose proof (decisionTree_payload
                  (fst (clickLogic (smoothed c last rd) rd (clickClock f)))
                  (landmarks f) rd (nowClock f)) as Hpay.
    rewrite Ks in Hpay. specialize (Hpay Sx Sy).
    rewrite (processFrame_tracked c f hand rest rd last H E L).
    destruct (decisionTree _ _ _ _) as [c3 ev2 | c3 ev2];
      cbn [stateOf eventsOf] in *.
    + split.
      * unfold boundedRefs.
        cbn [withRefs refs set_lastLandmark smoothedPos lastLandmark].
        rewrite Ds, Ks. split; [exact Sx |]. split; [exact Sy |].
        intros p Hp. injection Hp as <-. exact Htip.
      * apply Forall_app. split; [apply clickLogic_payload | exact Hpay].
    + split.
      * unfold boundedRefs. rewrite Ds, Ks, Dl, Kl.
        split; [exact Sx |]. split; [exact Sy |]. exact Bl.
      * apply Forall_app. split; [apply clickLogic_payload | exact Hpay].
Qed.

Lemma Forall_stamp (P : GestureEvent -> Prop) (f : Frame)
    (evs : list GestureEvent) :
  Forall P evs -> Forall (fun te => P (snd te)) (stamp f evs).
Proof.
  intros H. unfold stamp. induction H; cbn [map]; constructor; assumption.
Qed.

(** X9: as long as the index tip of every frame lies in the unit square
    (normalized coordinates), both coordinates of [smoothedPos] stay
    within [-1, 1] all along the loop, from any state where they are, and
    so every [Rotate] sent has both components within [-15, 15] and every
    [Pan] within [-22.5, 22.5]. *)
Theorem normalized_tips_bound_rotate_and_pan :
  forall (fs : list Frame) (c : Component),
    boundedRefs (refs c) ->
    Forall tipInSquare fs ->
    boundedRefs (refs (endOf (run c fs)))
    /\ Forall (fun te => payloadBounded (snd te)) (logOf (run c fs)).
Proof.
  induction fs as [| f fs IH]; intros c Hb Hsq.
  { cbn. split; [exact Hb | constructor]. }
  inversion Hsq as [| ? ? Hf Hfs]; subst.
  destruct (processFrame_bounded c f Hb Hf) as [Hb1 Hp1].
  cbn [run].
  destruct (processFrame c f) as [c1 evs | c1 evs];
    cbn [stateOf eventsOf] in Hb1, Hp1.
  - destruct (IH c1 Hb1 Hfs) as [Hb2 Hp2].
    destruct (run c1 fs) as [c2 log | c2 log]; cbn [endOf logOf] in *;
      (split; [exact Hb2 |]); apply Forall_app;
      (split; [apply Forall_stamp; exact Hp1 | exact Hp2]).
  - cbn [endOf logOf]. split; [exact Hb1 |]. apply Forall_stamp. exact Hp1.
Qed.

Lemma sample_tip_in_square (thumbTip : Point) (t : Z) :
  tipInSquare (oneHand (pointing thumbTip tipA) t)
  /\ tipInSquare (oneHand (pointing thumbTip tipB) t).
Proof.
  split; intros hand rest p Hl Hp; cbn [oneHand landmarks] in Hl;
    injection Hl as <- _; cbn in Hp; injection Hp as <-;
    unfold inUnitSquare, tipA, tipB; cbn [px py]; lra.
Defined.

Lemma normalized_tips_bound_rotate_and_pan_witness :
  Forall (fun te => payloadBounded (snd te))
    (logOf (run started
              [oneHand (pointing thumbAway tipA) t0;
               oneHand (pointing thumbAway tipB) (t0 + 33)])).
Proof.
  apply (normalized_tips_bound_rotate_and_pan
           [oneHand (pointing thumbAway tipA) t0;
            oneHand (pointing thumbAway tipB) (t0 + 33)] started).
  - unfold boundedRefs. cbn [started toggleCamera] .
    cbn. rewrite Rabs_R0. split; [lra |]. split; [lra |].
    intros p Hp. discriminate Hp.
  - apply Forall_cons; [apply (sample_tip_in_square thumbAway t0) |].
    apply Forall_cons; [apply (sample_tip_in_square thumbAway (t0 + 33)) |].
    apply Forall_nil.
Defined.

(** ** Motion below the deadzone *)

Lemma Rabs_strict (x b : R) : Rabs x < b <-> - b < x < b.
Proof. unfold Rabs. destruct (Rcase_abs x); lra. Qed.

Lemma deadzone_zero (d : R) : Rabs d < DEADZONE -> deadzone d = 0.
Proof. intros H. unfold deadzone. rewrite (Rltb_true _ _ H). reflexivity. Qed.

Lemma processFrame_records_tip (c c' : Component) (f : Frame) hand rest rd
    evs :
  landmarks f = hand :: rest -> readHand hand = Some rd ->
  processFrame c f = Done c' evs ->
  lastLandmark (refs c') = Some (indexTip rd).
Proof.
  intros Hl E Hstep.
  destruct (lastLandmark (refs c)) as [last |] eqn:L.
  - rewrite (processFrame_tracked c f hand rest rd last Hl E L) in Hstep.
    destruct (decisionTree _ _ _ _); [| discriminate].
    injection Hstep as <- _. reflexivity.
  - rewrite (processFrame_first c f hand rest rd Hl E L) in Hstep.
    injection Hstep as <- _. reflexivity.
Qed.

(** X10: while the index tip moves by less than 0.003 on each axis from
    one frame to the next, however far it gets in the end, no motion
    enters the smoothing: over [n] such frames (all landmarks present)
    the loop returns and [smoothedPos] is just scaled by [0.6 ^ n]; in
    particular it stays at zero if it was zero. *)
Theorem creeping_fingertip_adds_no_motion :
  forall (fs : list Frame) (c : Component) (p : Point),
    lastLandmark (refs c) = Some p ->
    creeping p fs ->
    Forall (fun f => completeFrame f = true) fs ->
    exists c' log,
      run c fs = Ran c' log
      /\ smoothedPos (refs c')
         = mkPoint ((1 - ALPHA) ^ length fs * px (smoothedPos (refs c)))
                   ((1 - ALPHA) ^ length fs * py (smoothedPos (refs c))).
Proof.
  induction fs as [| f fs IH]; intros c p L Hcreep Hc.
  { exists c, []. split; [reflexivity |]. cbn [length pow].
    rewrite !Rmult_1_l. destruct (smoothedPos (refs c)); reflexivity. }
  destruct Hcreep as (hand & rest & rd & Hl & E & Hx & Hy & Hcreep).
  inversion Hc as [| ? ? Hcf Hc']; subst.
  destruct (processFrame_complete c f Hcf) as (c1 & evs & Hstep).
  pose proof (processFrame_smooths c c1 f hand rest rd p evs Hl E L Hstep)
    as Hs.
  rewrite (deadzone_zero _ Hx), (deadzone_zero _ Hy) in Hs.
  pose proof (processFrame_records_tip c c1 f hand rest rd evs Hl E Hstep)
    as L1.
  destruct (IH c1 (indexTip rd) L1 Hcreep Hc') as (c2 & log & Hrun & Hfin).
  exists c2, (stamp f evs ++ log). cbn [run]. rewrite Hstep, Hrun.
  split; [reflexivity |].
  rewrite Hfin, Hs. cbn [px py length pow]. unfold smooth.
  f_equal; ring.
Qed.

Lemma sample_hand_read (thumbTip tip : Point) :
  exists rd,
    readHand (pointing thumbTip tip) = Some rd /\ indexTip rd = tip.
Proof.
  destruct (readHand_complete (pointing thumbTip tip) eq_refl)
    as (rd & Hrd & Htip).
  exists rd. split; [exact Hrd |].
  cbn in Htip. injection Htip as Htip. symmetry. exact Htip.
Defined.

Lemma creeping_fingertip_adds_no_motion_witness :
  exists c' log,
    run tracking
      [oneHand (pointing thumbAway (mkPoint 0.402 0.35)) (t0 + 33);
       oneHand (pointing thumbAway (mkPoint 0.404 0.35)) (t0 + 66);
       oneHand (pointing thumbAway (mkPoint 0.406 0.35)) (t0 + 99)]
    = Ran c' log
    /\ smoothedPos (refs c')
       = mkPoint ((1 - ALPHA) ^ 3 * px (smoothedPos (refs tracking)))
                 ((1 - ALPHA) ^ 3 * py (smoothedPos (refs tracking))).
Proof.
  apply (creeping_fingertip_adds_no_motion
           [oneHand (pointing thumbAway (mkPoint 0.402 0.35)) (t0 + 33);
            oneHand (pointing thumbAway (mkPoint 0.404 0.35)) (t0 + 66);
            oneHand (pointing thumbAway (mkPoint 0.406 0.35)) (t0 + 99)]
           tracking tipA).
  - reflexivity.
  - cbn [creeping].
    destruct (sample_hand_read thumbAway (mkPoint 0.402 0.35))
      as (rd1 & E1 & T1).
    destruct (sample_hand_read thumbAway (mkPoint 0.404 0.35))
      as (rd2 & E2 & T2).
    destruct (sample_hand_read thumbAway (mkPoint 0.406 0.35))
      as (rd3 & E3 & T3).
    exists (pointing thumbAway (mkPoint 0.402 0.35)), [], rd1.
    split; [reflexivity |]. split; [exact E1 |]. rewrite T1.
    split; [apply Rabs_strict; unfold DEADZONE, tipA; cbn [px py]; lra |].
    split; [apply Rabs_strict; unfold DEADZONE, tipA; cbn [px py]; lra |].
    exists (pointing thumbAway (mkPoint 0.404 0.35)), [], rd2.
    split; [reflexivity |]. split; [exact E2 |]. rewrite T2.
    split; [apply Rabs_strict; unfold DEADZONE; cbn [px py]; lra |].
    split; [apply Rabs_strict; unfold DEADZONE; cbn [px py]; lra |].
    exists (pointing thumbAway (mkPoint 0.406 0.35)), [], rd3.
    split; [reflexivity |]. split; [exact E3 |]. rewrite T3.
    split; [apply Rabs_strict; unfold DEADZONE; cbn [px py]; lra |].
    split; [apply Rabs_strict; unfold DEADZONE; cbn [px py]; lra |].
    exact I.
  - repeat (apply Forall_cons; [reflexivity |]). apply Forall_nil.
Defined.

(** ** The extension test under a change of scale or position *)

Lemma Rgtb_scale (k a b : R) :
  0 < k -> Rgtb (k * a) (k * b * 1.1) = Rgtb a (b * 1.1).
Proof.
  intros Hk. unfold Rgtb.
  destruct (Rlt_dec (b * 1.1) a) as [H | H].
  - rewrite (Rltb_true _ _ H). apply Rltb_true. nra.
  - rewrite (Rltb_false (b * 1.1) a) by lra. apply Rltb_false. nra.
Qed.

Lemma isExtended_similar (T : Point -> Point) (k : R) :
  0 < k ->
  (forall p q,
      hypot (px (T p) - px (T q)) (py (T p) - py (T q))
      = k * hypot (px p - px q) (py p - py q)) ->
  forall hand tipIdx dipIdx,
    isExtended (map T hand) tipIdx dipIdx = isExtended hand tipIdx dipIdx.
Proof.
  intros Hk HT hand tipIdx dipIdx. unfold isExtended.
  rewrite !nth_error_map.
  destruct (nth_error hand tipIdx) as [tip |]; cbn [option_map bind];
    [| reflexivity].
  destruct (nth_error hand 0) as [wrist |]; cbn [option_map bind];
    [| reflexivity].
  destruct (nth_error hand dipIdx) as [dip |]; cbn [option_map bind];
    [| reflexivity].
  rewrite !HT, (Rgtb_scale k _ _ Hk). reflexivity.
Qed.

(** X11: move, turn, mirror or rescale a hand (any map of the image that
    multiplies all distances by the same [k > 0]) and every finger gets
    the same extension verdict, missing landmarks included; the reading
    of the hand has the same four flags, while the thumb-index distance
    that the click thresholds look at is multiplied by [k]. *)
Theorem extension_test_ignores_scale_and_position :
  forall (T : Point -> Point) (k : R),
    0 < k ->
    (forall p q,
        hypot (px (T p) - px (T q)) (py (T p) - py (T q))
        = k * hypot (px p - px q) (py p - py q)) ->
    forall hand : Hand,
      (forall tipIdx dipIdx,
          isExtended (map T hand) tipIdx dipIdx
          = isExtended hand tipIdx dipIdx)
      /\ readHand (map T hand)
         = option_map
             (fun rd => mkReading (T (indexTip rd)) (indexOut rd)
                          (middleOut rd) (ringOut rd) (pinkyOut rd)
                          (k * tapDist rd))
             (readHand hand).
Proof.
  intros T k Hk HT hand. split; [apply (isExtended_similar T k Hk HT) |].
  unfold readHand. rewrite !(isExtended_similar T k Hk HT), !nth_error_map.
  destruct (isExtended hand 8 7); cbn [bind option_map]; [| reflexivity].
  destruct (isExtended hand 12 11); cbn [bind option_map]; [| reflexivity].
  destruct (isExtended hand 16 15); cbn [bind option_map]; [| reflexivity].
  destruct (isExtended hand 20 19); cbn [bind option_map]; [| reflexivity].
  destruct (nth_error hand 8) as [tip |]; cbn [bind option_map];
    [| reflexivity].
  destruct (nth_error hand 4) as [thumb |]; cbn [bind option_map];
    [| reflexivity].
  cbn [indexTip indexOut middleOut ringOut pinkyOut tapDist].
  rewrite HT. reflexivity.
Qed.

Lemma halving_is_similar (p q : Point) :
  hypot (px (mkPoint (px p / 2) (py p / 2))
         - px (mkPoint (px q / 2) (py q / 2)))
        (py (mkPoint (px p / 2) (py p / 2))
         - py (mkPoint (px q / 2) (py q / 2)))
  = 1 / 2 * hypot (px p - px q) (py p - py q).
Proof.
  cbn [px py].
  replace (px p / 2 - px q / 2) with ((px p - px q) * (1 / 2)) by lra.
  replace (py p / 2 - py q / 2) with ((py p - py q) * (1 / 2)) by lra.
  rewrite <- hypot_scale by lra. ring.
Defined.

Lemma extension_test_ignores_scale_and_position_witness :
  isExtended
    (map (fun p => mkPoint (px p / 2) (py p / 2)) (openPalm thumbAway tipA))
    8 7
  = isExtended (openPalm thumbAway tipA) 8 7.
Proof.
  assert (Hk : 0 < 1 / 2) by lra.
  apply (proj1 (extension_test_ignores_scale_and_position
                  (fun p => mkPoint (px p / 2) (py p / 2)) (1 / 2)
                  Hk halving_is_similar (openPalm thumbAway tipA))).
Defined.

(** * The gesture sink *)

Lemma pinchZoom_threshold (c : Component) (results : Results) (rd : Reading)
    (z : R) :
  In (Zoom z) (eventsOf (pinchZoom c results rd)) -> Rabs z > 0.005.
Proof.
  unfold pinchZoom.
  destruct (nth_error (nth 1 results []) 8) as [h2 |]; [| intros []].
  cbn [eventsOf setActiveGesture refs].
  destruct (lastPinchDist (refs c)) as [prev |]; [| intros []].
  match goal with |- context [Rgtb ?a ?b] => destruct (Rgtb a b) eqn:G end;
    [| intros []].
  intros [H | []]. injection H as <-. apply Rltb_true_iff in G. exact G.
Qed.

Lemma decisionTree_zoom_threshold (c : Component) (results : Results)
    (rd : Reading) (now : Z) (z : R) :
  In (Zoom z) (eventsOf (decisionTree c results rd now)) -> Rabs z > 0.005.
Proof.
  unfold decisionTree.
  destruct (isPalm rd).
  { destruct (now - lastResetTime (refs c) >? 2000)%Z; cbn [eventsOf In];
      [intros [H | []]; discriminate H | intros []]. }
  destruct (clickLocked c now); [intros [] |].
  destruct (length results =? 2)%nat; [apply pinchZoom_threshold |].
  destruct (middleOut rd && indexOut rd && negb (ringOut rd)).
  { intros [H | []]. discriminate H. }
  destruct (indexOut rd && negb (middleOut rd)); [| intros []].
  intros [H | []]. discriminate H.
Qed.

Lemma processFrame_zoom_threshold (c : Component) (f : Frame) (z : R) :
  In (Zoom z) (eventsOf (processFrame c f)) -> Rabs z > 0.005.
Proof.
  destruct (processFrame_cases c f)
    as [H | [(hand & rest & H & E) | [(hand & rest & rd & H & E & L)
                                      | (hand & rest & rd & last & H & E & L)]]].
  - rewrite (processFrame_lost c f H). intros [].
  - rewrite (processFrame_unreadable c f hand rest H E). intros [].
  - rewrite (processFrame_first c f hand rest rd H E L). intros [].
  - rewrite (processFrame_events c f hand rest rd last H E L), in_app_iff.
    intros [Hin | Hin].
    + exfalso. exact (clickLogic_no_zoom _ _ _ _ Hin).
    + exact (decisionTree_zoom_threshold _ _ _ _ _ Hin).
Qed.

(** X12: the zoom delta never reaches the viewer.  Every [Zoom delta]
    that a frame sends is handed on by [handleGesture] (the delta is
    never 0, so the guard lets it through), but as [zoom(undefined)]:
    [data] is the number itself and has no [distance]. *)
Theorem zoom_delta_is_lost_on_the_way_to_the_viewer :
  forall (c : Component) (f : Frame) (delta : R),
    In (Zoom delta) (eventsOf (processFrame c f)) ->
    handleGesture true (Zoom delta) = [CallZoom None]
    /\ In (CallZoom None) (frameCalls true c f)
    /\ forall d, ~ In (CallZoom (Some d)) (frameCalls true c f).
Proof.
  intros c f delta Hin.
  assert (Hcall : handleGesture true (Zoom delta) = [CallZoom None]).
  { cbn [handleGesture negb]. unfold truthy.
    destruct (Req_dec_T delta 0) as [-> | _]; [| reflexivity].
    apply processFrame_zoom_threshold in Hin.
    rewrite Rabs_R0 in Hin. lra. }
  split; [exact Hcall |]. split.
  - unfold frameCalls. apply in_flat_map. exists (Zoom delta).
    split; [exact Hin |]. rewrite Hcall. left. reflexivity.
  - intros d Hd. unfold frameCalls in Hd. apply in_flat_map in Hd.
    destruct Hd as (e & _ & He). cbn [handleGesture negb] in He.
    destruct e; cbn [In] in He;
      try (destruct He as [He | []]; discriminate He); try contradiction.
    destruct (truthy delta0); cbn [In] in He; [| contradiction].
    destruct He as [He | []]. discriminate He.
Qed.

Lemma zoom_delta_is_lost_on_the_way_to_the_viewer_witness :
  exists c,
    In (CallZoom None)
       (frameCalls true c
          (mkFrame [pointing thumbAway tipA; pointing thumbAway tipB]
                   (t0 + 66) (t0 + 66))).
Proof.
  destruct two_hand_zoom_scenario as (c1 & c2 & c3 & _ & _ & _ & Hstep & _).
  exists c2.
  apply (zoom_delta_is_lost_on_the_way_to_the_viewer c2
           (mkFrame [pointing thumbAway tipA; pointing thumbAway tipB]
                    (t0 + 66) (t0 + 66)) 0.4).
  rewrite Hstep. left. reflexivity.
Defined.

(** X13: [pick] puts its five events (pointerdown, pointerup, mousedown,
    mouseup, click, in this order) at one point of the page.  For
    normalized [x] and [y] and a canvas of non-negative size the point
    lies inside the canvas, mirrored from left to right: it is
    [x * width] away from the right edge and [y * height] below the top
    edge. *)
Theorem pick_lands_mirrored_inside_canvas :
  forall (rect : DOMRect) (x y : R),
    0 <= x <= 1 -> 0 <= y <= 1 ->
    0 <= rect_width rect -> 0 <= rect_height rect ->
    map eventType (pick true (Some rect) x y)
    = [pointerdown; pointerup; mousedown; mouseup; click]
    /\ forall ev,
         In ev (pick true (Some rect) x y) ->
         insideRect rect ev
         /\ rect_left rect + rect_width rect - clientX ev
            = x * rect_width rect
         /\ clientY ev - rect_top rect = y * rect_height rect.
Proof.
  intros rect x y Hx Hy Hw Hh. split; [reflexivity |].
  intros ev Hin. cbn [pick negb In] in Hin. unfold insideRect.
  destruct Hin as [<- | [<- | [<- | [<- | [<- | []]]]]];
    cbn [clientX clientY]; repeat split; nra.
Qed.

Lemma pick_lands_mirrored_inside_canvas_witness :
  Forall
    (fun ev =>
       insideRect (mkRect 100 50 800 600) ev
       /\ rect_left (mkRect 100 50 800 600)
          + rect_width (mkRect 100 50 800 600) - clientX ev
          = 0.40 * rect_width (mkRect 100 50 800 600)
       /\ clientY ev - rect_top (mkRect 100 50 800 600)
          = 0.35 * rect_height (mkRect 100 50 800 600))
    (pick true (Some (mkRect 100 50 800 600)) 0.40 0.35).
Proof.
  apply Forall_forall.
  destruct (pick_lands_mirrored_inside_canvas
              (mkRect 100 50 800 600) 0.40 0.35) as [_ H];
    [lra | lra | cbn [rect_width]; lra | cbn [rect_height]; lra | exact H].
Defined.

Lemma pick_inside (rect : DOMRect) (x y : R) (ev : DomEvent) :
  0 <= x <= 1 -> 0 <= y <= 1 ->
  0 <= rect_width rect -> 0 <= rect_height rect ->
  In ev (pick true (Some rect) x y) -> insideRect rect ev.
Proof.
  intros Hx Hy Hw Hh Hin. cbn [pick negb In] in Hin. unfold insideRect.
  destruct Hin as [<- | [<- | [<- | [<- | [<- | []]]]]];
    cbn [clientX clientY]; repeat split; nra.
Qed.

Lemma click_carries_index_tip (c : Component) (f : Frame) (x y : R) :
  In (Click x y) (eventsOf (processFrame c f)) ->
  exists hand rest tip,
    landmarks f = hand :: rest /\ nth_error hand 8 = Some tip
    /\ x = px tip /\ y = py tip.
Proof.
  destruct (processFrame_cases c f)
    as [H | [(hand & rest & H & E) | [(hand & rest & rd & H & E & L)
                                      | (hand & rest & rd & last & H & E & L)]]].
  - rewrite (processFrame_lost c f H). intros [].
  - rewrite (processFrame_unreadable c f hand rest H E). intros [].
  - rewrite (processFrame_first c f hand rest rd H E L). intros [].
  - rewrite (processFrame_events c f hand rest rd last H E L), in_app_iff.
    intros [Hin | Hin].
    + destruct (clickLogic_events (smoothed c last rd) rd (clickClock f))
        as [[Hev _] | [Hev _]]; rewrite Hev in Hin; cbn [In] in Hin;
        [destruct Hin |].
      destruct Hin as [Hin | []]. injection Hin as <- <-.
      exists hand, rest, (indexTip rd).
      split; [exact H |]. split; [exact (readHand_indexTip hand rd E) |].
      split; reflexivity.
    + exfalso.
      destruct (decisionTree_events
                  (fst (clickLogic (smoothed c last rd) rd (clickClock f)))
                  (landmarks f) rd (nowClock f)) as [Hev | (e & Hev & He)];
        rewrite Hev in Hin; cbn [In] in Hin; [exact Hin |].
      destruct Hin as [Hin | []]. rewrite Hin in He. discriminate He.
Qed.

(** X14: from the frame to the page: if the index tip of a frame is
    normalized and the canvas has a non-negative size, every DOM event
    that the frame causes through [handleGesture] and [pick] lies inside
    the canvas. *)
Theorem gesture_click_stays_inside_canvas :
  forall (canvas3d : bool) (rect : DOMRect) (c : Component) (f : Frame)
         (ev : DomEvent),
    tipInSquare f ->
    0 <= rect_width rect -> 0 <= rect_height rect ->
    In ev (frameDomEvents canvas3d (Some rect) c f) ->
    insideRect rect ev.
Proof.
  intros canvas3d rect c f ev Hsq Hw Hh Hin.
  unfold frameDomEvents in Hin. apply in_flat_map in Hin.
  destruct Hin as (call & Hcall & Hev).
  destruct call as [| | | | x y]; try contradiction.
  unfold frameCalls in Hcall. apply in_flat_map in Hcall.
  destruct Hcall as (e & He & Hh').
  cbn [handleGesture negb] in Hh'.
  assert (E : e = Click x y).
  { destruct e; cbn [In] in Hh';
      try (destruct Hh' as [D | []]; discriminate D); try contradiction.
    - destruct (truthy delta); cbn [In] in Hh'; [| contradiction].
      destruct Hh' as [D | []]. discriminate D.
    - destruct Hh' as [D | []]. injection D as -> ->. reflexivity. }
  subst e.
  destruct (click_carries_index_tip c f x y He)
    as (hand & rest & tip & Hl & Htip & -> & ->).
  destruct (Hsq hand rest tip Hl Htip) as [Hx Hy].
  destruct canvas3d; [| destruct Hev].
  exact (pick_inside rect (px tip) (py tip) ev Hx Hy Hw Hh Hev).
Qed.

Lemma pinch_on_tracked_frame_clicks :
  exists c,
    processFrame tracking (oneHand (pointing thumbPinch tipA) (t0 + 33))
    = Done c [Click 0.40 0.35].
Proof. eexists. step_frame. reflexivity. Qed.

Lemma gesture_click_stays_inside_canvas_witness :
  insideRect (mkRect 100 50 800 600)
    (mkDomEvent click (100 + (1 - 0.40) * 800) (50 + 0.35 * 600)).
Proof.
  apply (gesture_click_stays_inside_canvas true (mkRect 100 50 800 600)
           tracking (oneHand (pointing thumbPinch tipA) (t0 + 33))).
  - apply (sample_tip_in_square thumbPinch (t0 + 33)).
  - cbn [rect_width]. lra.
  - cbn [rect_height]. lra.
  - destruct pinch_on_tracked_frame_clicks as [c Hstep].
    unfold frameDomEvents, frameCalls. rewrite Hstep.
    cbn [eventsOf flat_map handleGesture negb app pick rect_left rect_top
           rect_width rect_height].
    right. right. right. right. left. reflexivity.
Defined.

(** * The pLDDT statistics *)

Lemma tally_from (bFactors : list R) :
  forall t,
    (high (fold_left tallyStep bFactors t)
     + med (fold_left tallyStep bFactors t)
     + low (fold_left tallyStep bFactors t)
     = high t + med t + low t + length bFactors)%nat.
Proof.
  induction bFactors as [| val l IH]; intros t; cbn [fold_left length].
  - lia.
  - rewrite IH. unfold tallyStep.
    destruct (Rgtb val 90); [cbn; lia |].
    destruct (negb (Rltb val 70)); cbn; lia.
Qed.

Lemma tally_total_from (lo hi : R) (bFactors : list R) :
  (forall v, In v bFactors -> lo <= v <= hi) ->
  forall t,
    total t + lo * INR (length bFactors)
    <= total (fold_left tallyStep bFactors t)
    <= total t + hi * INR (length bFactors).
Proof.
  induction bFactors as [| val l IH]; intros Hb t.
  - cbn [fold_left length INR]. lra.
  - cbn [fold_left]. rewrite length_cons, S_INR.
    assert (Hl : forall v, In v l -> lo <= v <= hi)
      by (intros v Hv; apply Hb; right; exact Hv).
    specialize (IH Hl (tallyStep t val)).
    assert (Hv : lo <= val <= hi) by (apply Hb; left; reflexivity).
    assert (Ht : total (tallyStep t val) = total t + val).
    { unfold tallyStep. destruct (Rgtb val 90); [reflexivity |].
      destruct (negb (Rltb val 70)); reflexivity. }
    rewrite Ht in IH. lra.
Qed.

Lemma tally_bands_from (bFactors : list R) :
  forall t,
    high (fold_left tallyStep bFactors t)
    = (high t + length (filter (fun v => Rgtb v 90) bFactors))%nat
    /\ med (fold_left tallyStep bFactors t)
       = (med t
          + length (filter (fun v => negb (Rgtb v 90) && negb (Rltb v 70))
                      bFactors))%nat
    /\ low (fold_left tallyStep bFactors t)
       = (low t
          + length (filter (fun v => negb (Rgtb v 90) && Rltb v 70)
                      bFactors))%nat.
Proof.
  induction bFactors as [| val l IH]; intros t; cbn [fold_left filter].
  - cbn. repeat split; lia.
  - destruct (IH (tallyStep t val)) as (H1 & H2 & H3).
    rewrite H1, H2, H3. unfold tallyStep.
    destruct (Rgtb val 90); cbn [negb andb high med low length].
    + repeat split; lia.
    + destruct (Rltb val 70); cbn [negb andb high med low length];
        repeat split; lia.
Qed.

(** X15: every atom is counted in exactly one confidence band: [high]
    counts the B-factors above 90, [med] those from 70 to 90, [low] those
    below 70, and the three counters add up to the number of B-factors.
    For a structure with at least one atom each percentage handed to
    [onConfidenceStats] lies between 0 and 100; with no atom every field
    is NaN. *)
Theorem confidence_bands_partition_the_atoms :
  forall bFactors : list R,
    high (tally bFactors)
    = length (filter (fun v => Rgtb v 90) bFactors)
    /\ med (tally bFactors)
       = length (filter (fun v => negb (Rgtb v 90) && negb (Rltb v 70))
                   bFactors)
    /\ low (tally bFactors)
       = length (filter (fun v => negb (Rgtb v 90) && Rltb v 70) bFactors)
    /\ (high (tally bFactors) + med (tally bFactors) + low (tally bFactors)
        = length bFactors)%nat
    /\ (bFactors = [] -> confidenceStats bFactors = AllNaN)
    /\ (bFactors <> [] ->
        exists s,
          confidenceStats bFactors = Stats s
          /\ 0 <= stats_high s <= 100
          /\ 0 <= medium s <= 100
          /\ 0 <= stats_low s <= 100).
Proof.
  intros bFactors.
  assert (Hsum : (high (tally bFactors) + med (tally bFactors)
                  + low (tally bFactors) = length bFactors)%nat).
  { unfold tally. rewrite tally_from. cbn. lia. }
  destruct (tally_bands_from bFactors (mkTally 0 0 0 0)) as (B1 & B2 & B3).
  fold (tally bFactors) in B1, B2, B3. cbn [high med low] in B1, B2, B3.
  split; [exact B1 |]. split; [exact B2 |]. split; [exact B3 |].
  split; [exact Hsum |]. split.
  - intros ->. reflexivity.
  - intros Hne. unfold confidenceStats.
    destruct bFactors as [| v l]; [contradiction |].
    set (bs := v :: l) in *.
    assert (Hpos : 0 < INR (length bs)) by (apply lt_0_INR; cbn; lia).
    replace (length bs =? 0)%nat with false
      by (symmetry; apply Nat.eqb_neq; cbn; lia).
    eexists. split; [reflexivity |]. cbn [stats_high medium stats_low].
    assert (Hn : forall n, (n <= length bs)%nat ->
                           0 <= INR n / INR (length bs) * 100 <= 100).
    { intros n Hle. pose proof (pos_INR n) as P0.
      apply le_INR in Hle.
      assert (Hq : 0 <= INR n / INR (length bs) <= 1).
      { split.
        - apply Rmult_le_pos; [exact P0 |].
          left. apply Rinv_0_lt_compat. exact Hpos.
        - apply (Rmult_le_reg_r (INR (length bs))); [exact Hpos |].
          unfold Rdiv. rewrite Rmult_assoc, Rinv_l by lra. lra. }
      lra. }
    repeat split; apply Hn; lia.
Qed.

Lemma confidence_bands_partition_the_atoms_witness :
  exists s,
    confidenceStats [95; 80; 50] = Stats s
    /\ 0 <= stats_high s <= 100
    /\ 0 <= medium s <= 100
    /\ 0 <= stats_low s <= 100.
Proof.
  apply (proj2 (proj2 (proj2 (proj2 (proj2
           (confidence_bands_partition_the_atoms [95; 80; 50])))))).
  discriminate.
Defined.

(** X16: the average handed to [onConfidenceStats] lies between any two
    bounds that hold for all the B-factors of a structure with at least
    one atom; for pLDDT values in [0, 100] so does the average. *)
Theorem average_plddt_within_the_values :
  forall (bFactors : list R) (lo hi : R),
    bFactors <> [] ->
    (forall v, In v bFactors -> lo <= v <= hi) ->
    exists s, confidenceStats bFactors = Stats s /\ lo <= avg s <= hi.
Proof.
  intros bFactors lo hi Hne Hb. unfold confidenceStats.
  destruct bFactors as [| v l]; [contradiction |].
  set (bs := v :: l) in *.
  assert (Hpos : 0 < INR (length bs)) by (apply lt_0_INR; cbn; lia).
  replace (length bs =? 0)%nat with false
    by (symmetry; apply Nat.eqb_neq; cbn; lia).
  eexists. split; [reflexivity |]. cbn [avg].
  pose proof (tally_total_from lo hi bs Hb (mkTally 0 0 0 0)) as Ht.
  cbn [total] in Ht. fold (tally bs) in Ht.
  split.
  - apply (Rmult_le_reg_r (INR (length bs))); [exact Hpos |].
    unfold Rdiv. rewrite Rmult_assoc, Rinv_l by lra. lra.
  - apply (Rmult_le_reg_r (INR (length bs))); [exact Hpos |].
    unfold Rdiv. rewrite Rmult_assoc, Rinv_l by lra. lra.
Qed.

Lemma average_plddt_within_the_values_witness :
  exists s, confidenceStats [95; 80; 50; 92] = Stats s /\ 0 <= avg s <= 100.
Proof.
  apply (average_plddt_within_the_values [95; 80; 50; 92] 0 100).
  - discriminate.
  - intros v [<- | [<- | [<- | [<- | []]]]]; lra.
Defined.

(** * Reacquisition *)

(** X17: losing the hand does not stop the motion that was being
    smoothed.  Over a frame with no hand, a first frame of the hand and a
    next frame (all landmarks present), the loop returns and
    [smoothedPos] is the value from before the loss put once through the
    smoothing update with the displacement between the last two tips: a
    hand that comes back and holds still starts with 0.6 times the old
    velocity. *)
Theorem old_velocity_survives_reacquisition :
  forall (c : Component) (fLost fFirst fNext : Frame)
         (hand1 hand2 : Hand) (rest1 rest2 : Results) (rd1 rd2 : Reading),
    landmarks fLost = [] ->
    landmarks fFirst = hand1 :: rest1 -> readHand hand1 = Some rd1 ->
    landmarks fNext = hand2 :: rest2 -> readHand hand2 = Some rd2 ->
    completeFrame fNext = true ->
    exists c' log,
      run c [fLost; fFirst; fNext] = Ran c' log
      /\ smoothedPos (refs c')
         = mkPoint
             (smooth (deadzone (px (indexTip rd2) - px (indexTip rd1)))
                     (px (smoothedPos (refs c))))
             (smooth (deadzone (py (indexTip rd2) - py (indexTip rd1)))
                     (py (smoothedPos (refs c)))).
Proof.
  intros c fLost fFirst fNext hand1 hand2 rest1 rest2 rd1 rd2
         H0 H1 E1 H2 E2 Hc.
  cbn [run]. rewrite (processFrame_lost c fLost H0).
  set (c0 := withRefs (fun r => set_lastPinchDist None
                                  (set_lastLandmark None r))
               (setActiveGesture None (setStatus NOT_FOUND c))).
  rewrite (processFrame_first c0 fFirst hand1 rest1 rd1 H1 E1 eq_refl).
  match goal with
  | |- context [processFrame ?c1 fNext] =>
      destruct (processFrame_complete c1 fNext Hc) as (c2 & evs & Hstep);
      pose proof (processFrame_smooths c1 c2 fNext hand2 rest2 rd2
                    (indexTip rd1) evs H2 E2 eq_refl Hstep) as Hs;
      rewrite Hstep
  end.
  eexists. eexists. split; [reflexivity |]. exact Hs.
Qed.

Lemma old_velocity_survives_reacquisition_witness :
  exists c' log,
    run (withRefs (set_smoothedPos (mkPoint 0.04 0)) tracking)
        [noHand t0;
         oneHand (pointing thumbAway tipA) (t0 + 33);
         oneHand (pointing thumbAway tipA) (t0 + 66)]
    = Ran c' log
    /\ smoothedPos (refs c')
       = mkPoint (smooth (deadzone (px tipA - px tipA)) 0.04)
                 (smooth (deadzone (py tipA - py tipA)) 0).
Proof.
  apply (old_velocity_survives_reacquisition
           (withRefs (set_smoothedPos (mkPoint 0.04 0)) tracking)
           (noHand t0)
           (oneHand (pointing thumbAway tipA) (t0 + 33))
           (oneHand (pointing thumbAway tipA) (t0 + 66))
           (pointing thumbAway tipA) (pointing thumbAway tipA) [] []
           (mkReading tipA true false false false
              (hypot (px tipA - px thumbAway) (py tipA - py thumbAway)))
           (mkReading tipA true false false false
              (hypot (px tipA - px thumbAway) (py tipA - py thumbAway)))).
  - reflexivity.
  - reflexivity.
  - apply readHand_pointing.
  - reflexivity.
  - apply readHand_pointing.
  - reflexivity.
Defined.

(** * Fetching with retries *)

Lemma retried_not_returned (status : nat) :
  retried status = true -> ok status = false /\ (status =? 404)%nat = false.
Proof.
  unfold retried, ok. intros H.
  apply orb_prop in H as [H | H]; [apply orb_prop in H as [H | H] |].
  - apply Nat.eqb_eq in H. subst. split; reflexivity.
  - apply Nat.eqb_eq in H. subst. split; reflexivity.
  - apply Nat.leb_le in H. split.
    + apply andb_false_intro2. apply Nat.leb_gt. lia.
    + apply Nat.eqb_neq. lia.
Qed.

Lemma fetchFrom_ends (net : nat -> Attempt) (retries backoff : nat)
    (fuel : nat) :
  forall i wait,
    (i + fuel = retries)%nat ->
    (fetches (fetchFrom net retries backoff i fuel wait) <= retries)%nat
    /\ (forall s,
           fetchEnd (fetchFrom net retries backoff i fuel wait) = Returned s ->
           retried s = false
           /\ net (fetches (fetchFrom net retries backoff i fuel wait) - 1)%nat
              = Response s)
    /\ (fetchEnd (fetchFrom net retries backoff i fuel wait)
        = MaxRetriesExceeded ->
        fetches (fetchFrom net retries backoff i fuel wait) = retries)
    /\ (fetchEnd (fetchFrom net retries backoff i fuel wait) = Rethrown ->
        fetches (fetchFrom net retries backoff i fuel wait) = retries
        /\ net (retries - 1)%nat = Rejected).
Proof.
  induction fuel as [| fuel IH]; intros i wait Hi; cbn [fetchFrom].
  { cbn. repeat split; try discriminate; lia. }
  destruct (net i) as [status |] eqn:N.
  - destruct (ok status) eqn:Hok.
    { cbn. replace (i - 0)%nat with i by lia.
      repeat split; try discriminate; try lia.
      - injection H as <-. unfold ok, retried in *.
        apply andb_prop in Hok as [_ Hle]. apply Nat.leb_le in Hle.
        repeat (apply orb_false_intro);
          [apply Nat.eqb_neq | apply Nat.eqb_neq | apply Nat.leb_gt]; lia.
      - injection H as <-. exact N. }
    destruct (status =? 404)%nat eqn:H404.
    { cbn. replace (i - 0)%nat with i by lia.
      apply Nat.eqb_eq in H404.
      repeat split; try discriminate; try lia.
      - injection H as <-. subst status. reflexivity.
      - injection H as <-. exact N. }
    destruct (retried status) eqn:Hr.
    { apply IH. lia. }
    cbn. replace (i - 0)%nat with i by lia.
    repeat split; try discriminate; try lia.
    + injection H as <-. exact Hr.
    + injection H as <-. exact N.
  - destruct (i =? retries - 1)%nat eqn:Hlast.
    + apply Nat.eqb_eq in Hlast. cbn.
      repeat split; try discriminate; try lia.
      rewrite <- Hlast. exact N.
    + apply IH. lia.
Qed.

(** X18: [fetchWithRetry] calls [fetch] at most [retries] times.  A
    response it returns is the one of its last [fetch] and never has a
    status the loop retries (429 or 500 and above): such statuses never
    reach the caller.  When it throws, all [retries] calls were made, and
    a rethrown error is the one of the last call. *)
Theorem fetchWithRetry_bounded_and_filters_server_errors :
  forall (net : nat -> Attempt) (retries backoff : nat),
    (fetches (fetchWithRetry net retries backoff) <= retries)%nat
    /\ (forall s,
           fetchEnd (fetchWithRetry net retries backoff) = Returned s ->
           (s <> 429 /\ s < 500)%nat
           /\ net (fetches (fetchWithRetry net retries backoff) - 1)%nat
              = Response s)
    /\ (fetchEnd (fetchWithRetry net retries backoff) = MaxRetriesExceeded ->
        fetches (fetchWithRetry net retries backoff) = retries)
    /\ (fetchEnd (fetchWithRetry net retries backoff) = Rethrown ->
        fetches (fetchWithRetry net retries backoff) = retries
        /\ net (retries - 1)%nat = Rejected).
Proof.
  intros net retries backoff. unfold fetchWithRetry.
  destruct (fetchFrom_ends net retries backoff retries 0 0 eq_refl)
    as (H1 & H2 & H3 & H4).
  split; [exact H1 |]. split; [| split; assumption].
  intros s Hs. destruct (H2 s Hs) as [Hr Hn]. split; [| exact Hn].
  unfold retried in Hr.
  apply orb_false_elim in Hr as [Hr H500].
  apply orb_false_elim in Hr as [H429 _].
  apply Nat.eqb_neq in H429. apply Nat.leb_gt in H500. lia.
Qed.

Lemma fetchWithRetry_bounded_and_filters_server_errors_witness :
  fetchEnd (fetchWithRetry
              (fun i => match i with
                        | O => Response 503
                        | 1%nat => Rejected
                        | _ => Response 403
                        end) 3 1000)
  = Returned 403
  /\ (403 <> 429 /\ 403 < 500)%nat.
Proof.
  split; [reflexivity |].
  apply (proj1 (proj2 (fetchWithRetry_bounded_and_filters_server_errors
                         (fun i => match i with
                                   | O => Response 503
                                   | 1%nat => Rejected
                                   | _ => Response 403
                                   end) 3 1000)) 403%nat).
  reflexivity.
Defined.

Lemma fetchFrom_all_retried (net : nat -> Attempt) (retries backoff : nat)
    (fuel : nat) :
  (forall i, (i < retries)%nat ->
             exists s, net i = Response s /\ retried s = true) ->
  forall i wait,
    (i + fuel = retries)%nat ->
    fetchEnd (fetchFrom net retries backoff i fuel wait) = MaxRetriesExceeded
    /\ fetches (fetchFrom net retries backoff i fuel wait) = retries
    /\ (2 * waited (fetchFrom net retries backoff i fuel wait)
        + backoff * (i * (i + 1))
        = 2 * wait + backoff * (retries * (retries + 1)))%nat.
Proof.
  intros Hall. induction fuel as [| fuel IH]; intros i wait Hi;
    cbn [fetchFrom].
  { cbn. replace i with retries by lia. repeat split; lia. }
  destruct (Hall i) as (s & -> & Hr); [lia |].
  destruct (retried_not_returned s Hr) as [-> ->]. rewrite Hr.
  destruct (IH (S i) (wait + backoff * (i + 1))%nat) as (E & F & W); [lia |].
  split; [exact E |]. split; [exact F |]. nia.
Qed.

(** X19: when every response has a status the loop retries,
    [fetchWithRetry] throws [MAX_RETRIES_EXCEEDED] after [retries] calls
    and [backoff * (1 + 2 + ... + retries)] milliseconds of waiting, the
    last wait coming after the last call: 6 seconds with the default 3
    retries and 1000 ms. *)
Theorem fetchWithRetry_gives_up_after_linear_backoff :
  forall (net : nat -> Attempt) (retries backoff : nat),
    (forall i, (i < retries)%nat ->
               exists s, net i = Response s /\ retried s = true) ->
    fetchEnd (fetchWithRetry net retries backoff) = MaxRetriesExceeded
    /\ fetches (fetchWithRetry net retries backoff) = retries
    /\ (2 * waited (fetchWithRetry net retries backoff)
        = backoff * (retries * (retries + 1)))%nat.
Proof.
  intros net retries backoff Hall. unfold fetchWithRetry.
  destruct (fetchFrom_all_retried net retries backoff retries Hall 0 0
              eq_refl) as (E & F & W).
  split; [exact E |]. split; [exact F |]. lia.
Qed.

Lemma fetchWithRetry_gives_up_after_linear_backoff_witness :
  fetchEnd (fetchWithRetry (fun _ => Response 503) 3 1000)
  = MaxRetriesExceeded
  /\ fetches (fetchWithRetry (fun _ => Response 503) 3 1000) = 3%nat
  /\ (2 * waited (fetchWithRetry (fun _ => Response 503) 3 1000)
      = 1000 * (3 * (3 + 1)))%nat.
Proof.
  apply (fetchWithRetry_gives_up_after_linear_backoff
           (fun _ => Response 503) 3 1000).
  intros i _. exists 503%nat. split; reflexivity.
Defined.

Lemma fetchFrom_all_rejected (net : nat -> Attempt) (retries backoff : nat)
    (fuel : nat) :
  (forall i, (i < retries)%nat -> net i = Rejected) ->
  forall i wait,
    (i + S fuel = retries)%nat ->
    fetchEnd (fetchFrom net retries backoff i (S fuel) wait) = Rethrown
    /\ fetches (fetchFrom net retries backoff i (S fuel) wait) = retries
    /\ (2 * waited (fetchFrom net retries backoff i (S fuel) wait)
        + backoff * (i * (i + 1))
        = 2 * wait + backoff * ((retries - 1) * retries))%nat.
Proof.
  intros Hall. induction fuel as [| fuel IH]; intros i wait Hi.
  - cbn [fetchFrom]. rewrite (Hall i) by lia.
    replace (i =? retries - 1)%nat with true
      by (symmetry; apply Nat.eqb_eq; lia).
    cbn. replace (retries - 1)%nat with i by lia.
    repeat split; nia.
  - remember (S fuel) as fuel1. cbn [fetchFrom]. rewrite (Hall i) by lia.
    replace (i =? retries - 1)%nat with false
      by (symmetry; apply Nat.eqb_neq; lia).
    subst fuel1.
    destruct (IH (S i) (wait + backoff * (i + 1))%nat) as (E & F & W);
      [lia |].
    split; [exact E |]. split; [exact F |]. nia.
Qed.

(** X20: when every [fetch] rejects and at least one retry is allowed,
    [fetchWithRetry] rethrows the last error after [retries] calls and
    [backoff * (1 + ... + (retries - 1))] milliseconds of waiting; it
    does not wait after the last call. *)
Theorem fetchWithRetry_rethrows_network_error :
  forall (net : nat -> Attempt) (retries backoff : nat),
    (0 < retries)%nat ->
    (forall i, (i < retries)%nat -> net i = Rejected) ->
    fetchEnd (fetchWithRetry net retries backoff) = Rethrown
    /\ fetches (fetchWithRetry net retries backoff) = retries
    /\ (2 * waited (fetchWithRetry net retries backoff)
        = backoff * ((retries - 1) * retries))%nat.
Proof.
  intros net retries backoff Hpos Hall. unfold fetchWithRetry.
  destruct retries as [| fuel]; [lia |].
  destruct (fetchFrom_all_rejected net (S fuel) backoff fuel Hall 0 0
              eq_refl) as (E & F & W).
  split; [exact E |]. split; [exact F |]. lia.
Qed.

Lemma fetchWithRetry_rethrows_network_error_witness :
  fetchEnd (fetchWithRetry (fun _ => Rejected) 3 1000) = Rethrown
  /\ fetches (fetchWithRetry (fun _ => Rejected) 3 1000) = 3%nat
  /\ (2 * waited (fetchWithRetry (fun _ => Rejected) 3 1000)
      = 1000 * ((3 - 1) * 3))%nat.
Proof.
  apply (fetchWithRetry_rethrows_network_error (fun _ => Rejected) 3 1000).
  - lia.
  - intros i _. reflexivity.
Defined.

(** * The onboarding tour *)

Lemma tourHandler_fresh (t : Tour) (a : TourAction) :
  (0 <= currentStep t < stepsLength)%Z ->
  (0 <= currentStep (tourHandler (currentStep t) t a) < stepsLength)%Z
  /\ (tourSeen t = true ->
      tourSeen (tourHandler (currentStep t) t a) = true)
  /\ (isVisible t = false ->
      isVisible (tourHandler (currentStep t) t a) = false).
Proof.
  intros H. unfold stepsLength in *. destruct a; cbn [tourHandler].
  - unfold stepsLength. destruct (currentStep t <? 4 - 1)%Z eqn:G; cbn.
    + apply Z.ltb_lt in G. repeat split; auto; lia.
    + repeat split; auto; lia.
  - destruct (0 <? currentStep t)%Z eqn:G; cbn.
    + apply Z.ltb_lt in G. repeat split; auto; lia.
    + repeat split; auto; lia.
  - cbn. repeat split; auto; lia.
Qed.

(** X21: as long as every button press is handled in the render of the
    current state, the tour never leaves its four steps, so
    [steps[currentStep]] exists; a hidden tour stays hidden and one marked
    as seen stays marked.  The bound comes from the render and not from
    the state: two [nextStep] calls of the render of step 2 leave
    [currentStep] at 4. *)
Theorem tour_stays_within_its_steps_when_rerendered :
  (forall (acts : list TourAction) (t : Tour),
      (0 <= currentStep t < stepsLength)%Z ->
      (0 <= currentStep (tourClicks t acts) < stepsLength)%Z
      /\ (tourSeen t = true -> tourSeen (tourClicks t acts) = true)
      /\ (isVisible t = false -> isVisible (tourClicks t acts) = false))
  /\ currentStep (tourBatch (mkTour 2 true false) [NextStep; NextStep])
     = 4%Z.
Proof.
  split; [| reflexivity].
  unfold tourClicks.
  induction acts as [| a acts IH]; intros t H; cbn [fold_left].
  - auto.
  - destruct (tourHandler_fresh t a H) as (H1 & H2 & H3).
    destruct (IH (tourHandler (currentStep t) t a) H1) as (I1 & I2 & I3).
    split; [exact I1 |]. split; auto.
Qed.

Lemma tour_stays_within_its_steps_when_rerendered_witness :
  (0 <= currentStep
          (tourClicks (mkTour 0 true false)
             [NextStep; NextStep; NextStep; PrevStep; NextStep; NextStep])
   < stepsLength)%Z.
Proof.
  apply (proj1 tour_stays_within_its_steps_when_rerendered
           [NextStep; NextStep; NextStep; PrevStep; NextStep; NextStep]
           (mkTour 0 true false)).
  unfold stepsLength. cbn. lia.
Defined.

(** ** C8: smoothing of a constant displacement, deadzone included *)

Lemma run_complete (fs : list Frame) :
  forall c,
    Forall (fun f => completeFrame f = true) fs ->
    exists c' log, run c fs = Ran c' log.
Proof.
  induction fs as [| f fs IH]; intros c Hc.
  - exists c, []. reflexivity.
  - inversion Hc as [| ? ? Hf Hrest]; subst.
    destruct (processFrame_complete c f Hf) as (c1 & evs & Hstep).
    destruct (IH c1 Hrest) as (c2 & log & Hrun).
    exists c2, (stamp f evs ++ log). cbn [run]. rewrite Hstep, Hrun.
    reflexivity.
Qed.

Lemma advancing_app_l (fs fs2 : list Frame) :
  forall p d, advancing p d (fs ++ fs2) -> advancing p d fs.
Proof.
  induction fs as [| f fs IH]; intros p d H; cbn [app advancing] in *.
  - exact I.
  - destruct H as (hand & rest & rd & Hl & E & Hx & Hy & H).
    exists hand, rest, rd. repeat (split; [assumption |]).
    apply (IH _ _ H).
Qed.

Lemma deadzone_keep (d : R) : DEADZONE <= Rabs d -> deadzone d = d.
Proof.
  intros H. unfold deadzone. rewrite Rltb_false; [reflexivity | lra].
Qed.

Lemma smoothN_rest (n : nat) : smoothN 0 n = 0.
Proof. pose proof (smoothN_gap 0 n) as G. lra. Qed.

Lemma smoothN_towards (d : R) (n : nat) :
  towards d (smoothN (deadzone d) n) (smoothN (deadzone d) (S n)) n.
Proof.
  unfold towards.
  destruct (Rlt_or_le (Rabs d) DEADZONE) as [Hin | Hout].
  - rewrite (deadzone_zero d Hin), !smoothN_rest.
    split; [intros; lra |]. split; [intros; lra |].
    split; [lra |]. split; [intros; lra |]. auto.
  - rewrite (deadzone_keep d Hout).
    pose proof (smoothN_gap d n) as G.
    pose proof (retain_pow_bounds n) as B.
    assert (Gs : d - smoothN d (S n) = (1 - ALPHA) * (d - smoothN d n)).
    { cbn [smoothN]. apply smooth_gap. }
    assert (Ha : Rabs (d - smoothN d (S n))
                 = (1 - ALPHA) * Rabs (d - smoothN d n)).
    { rewrite Gs, Rabs_mult.
      rewrite (Rabs_right (1 - ALPHA)) by (unfold ALPHA; lra).
      reflexivity. }
    pose proof (Rabs_pos (d - smoothN d n)) as P.
    unfold ALPHA in *.
    split; [intros Hd; nra |]. split; [intros Hd; nra |].
    split; [lra |]. split.
    + intros _. split; [| exact Ha].
      rewrite G, Rabs_mult. rewrite (Rabs_right (_ ^ n)) by lra.
      reflexivity.
    + intros Hin. lra.
Qed.

(** C8 (as the code has it): the tip moves by the same raw displacement
    [d] from each frame to the next, all landmarks present, [smoothedPos]
    starting from zero.  The frame loop returns, and on each axis the
    smoothed value moves from 0 towards [d] without ever passing it, the
    gap to [d] never growing.  On an axis where [|d| >= 0.003] the gap
    after [n] frames is [|d| * 0.6 ^ n], shrinking by the factor 0.6 per
    frame, so the smoothed value comes as close to [d] as wanted; on an
    axis where [|d| < 0.003] the deadzone removes the displacement and the
    smoothed value rests at 0. *)
Theorem smoothing_approaches_outside_deadzone :
  forall d : Point,
    (forall (fs : list Frame) (f : Frame) (c : Component) (p : Point),
        lastLandmark (refs c) = Some p ->
        smoothedPos (refs c) = mkPoint 0 0 ->
        advancing p d (fs ++ [f]) ->
        Forall (fun f' => completeFrame f' = true) (fs ++ [f]) ->
        exists c1 log1 c2 log2,
          run c fs = Ran c1 log1
          /\ run c (fs ++ [f]) = Ran c2 log2
          /\ towards (px d) (px (smoothedPos (refs c1)))
                     (px (smoothedPos (refs c2))) (length fs)
          /\ towards (py d) (py (smoothedPos (refs c1)))
                     (py (smoothedPos (refs c2))) (length fs))
    /\ (forall eps : R,
          0 < eps ->
          exists N : nat,
            forall (fs : list Frame) (c : Component) (p : Point),
              lastLandmark (refs c) = Some p ->
              smoothedPos (refs c) = mkPoint 0 0 ->
              advancing p d fs ->
              Forall (fun f' => completeFrame f' = true) fs ->
              (N <= length fs)%nat ->
              exists c' log,
                run c fs = Ran c' log
                /\ (DEADZONE <= Rabs (px d) ->
                    Rabs (px d - px (smoothedPos (refs c'))) < eps)
                /\ (DEADZONE <= Rabs (py d) ->
                    Rabs (py d - py (smoothedPos (refs c'))) < eps)).
Proof.
  intros d. split.
  - intros fs f c p L Z0 Hadv Hc.
    assert (Hc1 : Forall (fun f' => completeFrame f' = true) fs).
    { apply Forall_app in Hc. apply Hc. }
    destruct (run_complete fs c Hc1) as (c1 & log1 & R1).
    destruct (run_complete (fs ++ [f]) c Hc) as (c2 & log2 & R2).
    exists c1, log1, c2, log2.
    split; [exact R1 |]. split; [exact R2 |].
    rewrite (run_constant_displacement fs c c1 log1 p d L Z0
               (advancing_app_l fs [f] p d Hadv) R1).
    rewrite (run_constant_displacement (fs ++ [f]) c c2 log2 p d L Z0
               Hadv R2).
    rewrite length_app. cbn [length]. rewrite Nat.add_1_r. cbn [px py].
    split; apply smoothN_towards.
  - intros eps Heps.
    destruct (smoothN_limit (px d) eps Heps) as [Nx HNx].
    destruct (smoothN_limit (py d) eps Heps) as [Ny HNy].
    exists (Nat.max Nx Ny). intros fs c p L Z0 Hadv Hc Hlen.
    destruct (run_complete fs c Hc) as (c' & log & R).
    exists c', log. split; [exact R |].
    rewrite (run_constant_displacement fs c c' log p d L Z0 Hadv R).
    cbn [px py]. split; intros Hout; rewrite (deadzone_keep _ Hout).
    + apply HNx. lia.
    + apply HNy. lia.
Qed.

Lemma smoothing_approaches_outside_deadzone_witness :
  exists c1 log1 c2 log2,
    run tracking [oneHand (pointing thumbAway tipB) (t0 + 33)]
    = Ran c1 log1
    /\ run tracking
         ([oneHand (pointing thumbAway tipB) (t0 + 33)]
          ++ [oneHand (pointing thumbAway (mkPoint 0.60 0.35)) (t0 + 66)])
       = Ran c2 log2
    /\ towards 0.1 (px (smoothedPos (refs c1)))
               (px (smoothedPos (refs c2))) 1
    /\ towards 0 (py (smoothedPos (refs c1)))
               (py (smoothedPos (refs c2))) 1.
Proof.
  apply (proj1 (smoothing_approaches_outside_deadzone (mkPoint 0.1 0))
           [oneHand (pointing thumbAway tipB) (t0 + 33)]
           (oneHand (pointing thumbAway (mkPoint 0.60 0.35)) (t0 + 66))
           tracking tipA).
  - reflexivity.
  - reflexivity.
  - cbn [app advancing].
    destruct (sample_hand_read thumbAway tipB) as (rd1 & E1 & T1).
    destruct (sample_hand_read thumbAway (mkPoint 0.60 0.35))
      as (rd2 & E2 & T2).
    exists (pointing thumbAway tipB), [], rd1.
    split; [reflexivity |]. split; [exact E1 |]. rewrite T1.
    split; [unfold tipA, tipB; cbn [px py]; lra |].
    split; [unfold tipA, tipB; cbn [px py]; lra |].
    exists (pointing thumbAway (mkPoint 0.60 0.35)), [], rd2.
    split; [reflexivity |]. split; [exact E2 |]. rewrite T2.
    split; [unfold tipB; cbn [px py]; lra |].
    split; [unfold tipB; cbn [px py]; lra |].
    exact I.
  - repeat constructor.
Defined.

(** C8, counterexample: the tip moves by 0.002 along x in every frame.
    Each displacement falls inside the deadzone, so whatever the number of
    frames [smoothedPos] stays at zero and its distance to 0.002 never
    shrinks; shown on a run of three frames from [tracking]. *)
Lemma deadzone_keeps_smoothing_from_displacement :
  exists c' log,
    advancing tipA (mkPoint 0.002 0)
      [oneHand (pointing thumbAway (mkPoint 0.402 0.35)) (t0 + 33);
       oneHand (pointing thumbAway (mkPoint 0.404 0.35)) (t0 + 66);
       oneHand (pointing thumbAway (mkPoint 0.406 0.35)) (t0 + 99)]
    /\ run tracking
         [oneHand (pointing thumbAway (mkPoint 0.402 0.35)) (t0 + 33);
          oneHand (pointing thumbAway (mkPoint 0.404 0.35)) (t0 + 66);
          oneHand (pointing thumbAway (mkPoint 0.406 0.35)) (t0 + 99)]
       = Ran c' log
    /\ smoothedPos (refs c') = mkPoint 0 0
    /\ Rabs (0.002 - px (smoothedPos (refs c'))) = 0.002
    /\ (forall (fs : list Frame) (c2 : Component)
               (log2 : list (Z * GestureEvent)),
          advancing tipA (mkPoint 0.002 0) fs ->
          run tracking fs = Ran c2 log2 ->
          smoothedPos (refs c2) = mkPoint 0 0).
Proof.
  assert (Hzero : forall (fs : list Frame) (c2 : Component)
                         (log2 : list (Z * GestureEvent)),
             advancing tipA (mkPoint 0.002 0) fs ->
             run tracking fs = Ran c2 log2 ->
             smoothedPos (refs c2) = mkPoint 0 0).
  { intros fs c2 log2 Hadv Hrun.
    rewrite (run_constant_displacement fs tracking c2 log2 tipA
               (mkPoint 0.002 0) eq_refl eq_refl Hadv Hrun).
    cbn [px py].
    rewrite (deadzone_zero 0.002), (deadzone_zero 0), !smoothN_rest.
    - reflexivity.
    - rewrite Rabs_R0. unfold DEADZONE. lra.
    - apply Rabs_strict. unfold DEADZONE. lra. }
  assert (Hadv : advancing tipA (mkPoint 0.002 0)
            [oneHand (pointing thumbAway (mkPoint 0.402 0.35)) (t0 + 33);
             oneHand (pointing thumbAway (mkPoint 0.404 0.35)) (t0 + 66);
             oneHand (pointing thumbAway (mkPoint 0.406 0.35)) (t0 + 99)]).
  { cbn [advancing].
    destruct (sample_hand_read thumbAway (mkPoint 0.402 0.35))
      as (rd1 & E1 & T1).
    destruct (sample_hand_read thumbAway (mkPoint 0.404 0.35))
      as (rd2 & E2 & T2).
    destruct (sample_hand_read thumbAway (mkPoint 0.406 0.35))
      as (rd3 & E3 & T3).
    exists (pointing thumbAway (mkPoint 0.402 0.35)), [], rd1.
    split; [reflexivity |]. split; [exact E1 |]. rewrite T1.
    split; [unfold tipA; cbn [px py]; lra |].
    split; [unfold tipA; cbn [px py]; lra |].
    exists (pointing thumbAway (mkPoint 0.404 0.35)), [], rd2.
    split; [reflexivity |]. split; [exact E2 |]. rewrite T2.
    split; [cbn [px py]; lra |]. split; [cbn [px py]; lra |].
    exists (pointing thumbAway (mkPoint 0.406 0.35)), [], rd3.
    split; [reflexivity |]. split; [exact E3 |]. rewrite T3.
    split; [cbn [px py]; lra |]. split; [cbn [px py]; lra |].
    exact I. }
  destruct (run_complete
              [oneHand (pointing thumbAway (mkPoint 0.402 0.35)) (t0 + 33);
               oneHand (pointing thumbAway (mkPoint 0.404 0.35)) (t0 + 66);
               oneHand (pointing thumbAway (mkPoint 0.406 0.35)) (t0 + 99)]
              tracking) as (c' & log & Hrun).
  { repeat constructor. }
  exists c', log.
  split; [exact Hadv |]. split; [exact Hrun |].
  pose proof (Hzero _ c' log Hadv Hrun) as Hs.
  split; [exact Hs |]. split; [| exact Hzero].
  rewrite Hs. cbn [px]. rewrite Rminus_0_r. apply Rabs_right. lra.
Qed.
